(** * regclient: image copy, image export and the layer-pull command

    A shallow embedding of [cli/layer.go] (the [runLayerPull] command) and of
    the image functions of package [regclient] ([ImageCopy], [ImageExport],
    [ImageInspect]).

    The Go code is sequential and effectful: it talks to a registry, creates
    and renames files under a temporary directory, writes to an output stream
    and registers deferred calls.  It is embedded as programs of a small
    state monad whose results distinguish a normal return, an early
    [return err] and a run-time panic.  Everything the code consumes from
    other packages (the registry client, the JSON codec, the digest
    algorithm, the decompressor, the tar encoder) is a field of the
    environment record [Env]; the file system under [os.TempDir()] is a
    concrete tree. *)

From Stdlib Require Import ZArith String Ascii.
From stdpp Require Import base option list strings gmap fin_maps.

Set Default Proof Using "Type".
Local Open Scope string_scope.
Local Open Scope list_scope.

(** ** Plain data *)

Definition bytes := list Byte.byte.

(** [time.Time], as seconds since the Unix epoch. *)
Definition Time := Z.

(** [digest.Digest] is a Go string of the form [<algorithm>:<hex>]. *)
Definition Digest := string.

Inductive error :=
| ErrNotFound
| Errno (name : string)
| ErrFault (code : nat).

(** A Go result pair [(value, err)] of a call whose value is only used when
    [err == nil]. *)
Inductive res (A : Type) :=
| Ok (a : A)
| Err (e : error).
Arguments Ok {A} a.
Arguments Err {A} e.

Definition err_of {A} (r : res A) : option error :=
  match r with Ok _ => None | Err e => Some e end.

(** An [io.Reader] with a finite content: reading yields [sdata] and then
    either end-of-file or the error [serr]. *)
Record Stream := mkStream { sdata : bytes; serr : option error }.

Record Ref := mkRef {
  Registry : string;
  Repository : string;
  Tag : string;
  RefDigest : string;
  Reference : string
}.

(** [ociv1.Descriptor] *)
Record Descriptor := mkDescriptor {
  MediaType : string;
  DescDigest : Digest;
  Size : Z
}.

(** The manifest interface, as [ImageCopy] and [ImageExport] consume it. *)
Record Manifest := mkManifest {
  GetConfigDigest : res Digest;
  GetLayers : res (list Descriptor)
}.

(** [ociv1.Image]: the fields the export touches, the rest carried along. *)
Record Image := mkImage {
  Created : option Time;
  RootFS_Type : string;
  RootFS_DiffIDs : list Digest;
  ImageRest : string
}.

Definition set_DiffIDs (ds : list Digest) (c : Image) : Image :=
  {| Created := Created c; RootFS_Type := RootFS_Type c;
     RootFS_DiffIDs := ds; ImageRest := ImageRest c |}.

Record dockerTarManifest := mkTarManifest {
  Config : string;
  RepoTags : list string;
  Layers : list string
}.

Definition set_Config (c : string) (m : dockerTarManifest) :=
  {| Config := c; RepoTags := RepoTags m; Layers := Layers m |}.
Definition set_RepoTags (t : list string) (m : dockerTarManifest) :=
  {| Config := Config m; RepoTags := t; Layers := Layers m |}.
Definition set_Layers (l : list string) (m : dockerTarManifest) :=
  {| Config := Config m; RepoTags := RepoTags m; Layers := l |}.

Definition MediaTypeDocker2ImageConfig := "application/vnd.docker.container.image.v1+json".
Definition MediaTypeImageConfig := "application/vnd.oci.image.config.v1+json".

(** ** The file system under [os.TempDir()] *)

Definition path := list string.

#[warnings="-register-all"]
Inductive node :=
| File (data : bytes) (mtime : Time)
| Dir (ents : gmap string node).

Fixpoint get (p : path) (n : node) : option node :=
  match p with
  | [] => Some n
  | c :: p' =>
      match n with
      | Dir es => match es !! c with Some n' => get p' n' | None => None end
      | File _ _ => None
      end
  end.

(** [put p x n] stores [x] at [p]; the parent of [p] has to be a directory. *)
Fixpoint put (p : path) (x : node) (n : node) : option node :=
  match p with
  | [] => Some x
  | c :: p' =>
      match n with
      | Dir es =>
          match p' with
          | [] => Some (Dir (<[c := x]> es))
          | _ :: _ =>
              match es !! c with
              | Some n' =>
                  match put p' x n' with
                  | Some n'' => Some (Dir (<[c := n'']> es))
                  | None => None
                  end
              | None => None
              end
          end
      | File _ _ => None
      end
  end.

(** [remove p n] deletes the entry at [p] with everything below it. *)
Fixpoint remove (p : path) (n : node) : node :=
  match p with
  | [] => n
  | c :: p' =>
      match n with
      | Dir es =>
          match p' with
          | [] => Dir (delete c es)
          | _ :: _ =>
              match es !! c with
              | Some n' => Dir (<[c := remove p' n']> es)
              | None => n
              end
          end
      | File _ _ => n
      end
  end.

Definition is_dir (n : node) : bool :=
  match n with Dir _ => true | File _ _ => false end.

(** [filepath.Join] drops empty elements. *)
Definition Join (p : path) (elem : string) : path :=
  if decide (elem = "") then p else p ++ [elem].

(** A relative path printed with the separator. *)
Fixpoint path_string (p : path) : string :=
  match p with
  | [] => ""
  | [c] => c
  | c :: p' => c +:+ "/" +:+ path_string p'
  end.

(** [os.Mkdir] of a fresh name inside [dir], as [ioutil.TempDir] does it. *)
Definition fs_mkdir (dir : path) (name : string) (root : node) : res path * node :=
  match get dir root with
  | Some (Dir es) =>
      match es !! name with
      | Some _ => (Err (Errno "EEXIST"), root)
      | None =>
          match put (dir ++ [name]) (Dir ∅) root with
          | Some root' => (Ok (dir ++ [name]), root')
          | None => (Err (Errno "ENOENT"), root)
          end
      end
  | Some (File _ _) => (Err (Errno "ENOTDIR"), root)
  | None => (Err (Errno "ENOENT"), root)
  end.

(** [os.OpenFile(p, O_RDWR|O_CREATE|O_TRUNC, 0644)]; the handle is the path. *)
Definition fs_open_trunc (p : path) (now : Time) (root : node) : res path * node :=
  match get p root with
  | Some (Dir _) => (Err (Errno "EISDIR"), root)
  | _ =>
      match put p (File [] now) root with
      | Some root' => (Ok p, root')
      | None => (Err (Errno "ENOENT"), root)
      end
  end.

(** Appending to an open file. *)
Definition fs_append (p : path) (d : bytes) (now : Time) (root : node) : res unit * node :=
  match get p root with
  | Some (File d0 _) =>
      match put p (File (d0 ++ d) now) root with
      | Some root' => (Ok tt, root')
      | None => (Err (Errno "EBADF"), root)
      end
  | _ => (Err (Errno "EBADF"), root)
  end.

(** [ioutil.WriteFile(p, d, 0644)] *)
Definition fs_write_file (p : path) (d : bytes) (now : Time) (root : node) : res unit * node :=
  match get p root with
  | Some (Dir _) => (Err (Errno "EISDIR"), root)
  | _ =>
      match put p (File d now) root with
      | Some root' => (Ok tt, root')
      | None => (Err (Errno "ENOENT"), root)
      end
  end.

(** [os.Rename(old, new)].  Package [os] refuses an existing directory at
    [new] with EEXIST before it calls rename(2), which replaces an existing
    file by a file and moves the entry otherwise. *)
Definition fs_rename (old new : path) (root : node) : res unit * node :=
  match get old root with
  | None => (Err (Errno "ENOENT"), root)
  | Some src =>
      match get new root with
      | Some (Dir _) => (Err (Errno "EEXIST"), root)
      | Some (File _ _) =>
          if is_dir src then (Err (Errno "ENOTDIR"), root)
          else
            match put new src (remove old root) with
            | Some root' => (Ok tt, root')
            | None => (Err (Errno "ENOENT"), root)
            end
      | None =>
          if decide (old `prefix_of` new) then (Err (Errno "EINVAL"), root)
          else
            match put new src (remove old root) with
            | Some root' => (Ok tt, root')
            | None => (Err (Errno "ENOENT"), root)
            end
      end
  end.

(** [os.Chtimes(p, t, t)]; directory times are not part of the model. *)
Definition fs_chtimes (p : path) (t : Time) (root : node) : res unit * node :=
  match get p root with
  | Some (File d _) =>
      match put p (File d t) root with
      | Some root' => (Ok tt, root')
      | None => (Err (Errno "ENOENT"), root)
      end
  | Some (Dir _) => (Ok tt, root)
  | None => (Err (Errno "ENOENT"), root)
  end.

(** ** Events, deferred calls and the program state *)

Inductive call :=
| CManifestGet (r : Ref)
| CManifestPut (r : Ref) (m : Manifest)
| CBlobGet (r : Ref) (d : string) (accept : list string)
| CBlobCopy (src tgt : Ref) (d : string)
| CTempDir (dir : path) (pattern : string)
| COpenFile (p : path)
| CCopyFile (p : path) (d : bytes)
| CCloseFile (p : path)
| CRename (old new : path)
| CChtimes (p : path) (t : Time)
| CWriteFile (p : path) (d : bytes)
| CTar (p : path)
| CCopyOut (d : bytes)
| CCloseReader
| CRemoveAll (p : path).

(** A call together with the error it returned, if any. *)
Definition event : Type := call * option error.

Inductive deferred :=
| DRemoveAll (p : path)
| DClose.

Record state := mkState {
  fs : node;
  out : bytes;
  stderr : list string;
  trace : list event;
  defers : list deferred
}.

Definition set_fs (r : node) (s : state) : state :=
  {| fs := r; out := out s; stderr := stderr s; trace := trace s; defers := defers s |}.
Definition add_out (d : bytes) (s : state) : state :=
  {| fs := fs s; out := out s ++ d; stderr := stderr s; trace := trace s; defers := defers s |}.
Definition add_stderr (l : string) (s : state) : state :=
  {| fs := fs s; out := out s; stderr := stderr s ++ [l]; trace := trace s; defers := defers s |}.
Definition log (c : call) (e : option error) (s : state) : state :=
  {| fs := fs s; out := out s; stderr := stderr s; trace := trace s ++ [(c, e)]; defers := defers s |}.
Definition set_defers (ds : list deferred) (s : state) : state :=
  {| fs := fs s; out := out s; stderr := stderr s; trace := trace s; defers := ds |}.

(** The state a run starts from: a file system and nothing else. *)
Definition init (root : node) : state :=
  {| fs := root; out := []; stderr := []; trace := []; defers := [] |}.

(** ** The monad *)

Inductive outcome (A : Type) :=
| Done (a : A)
| Raise (e : error)
| Panic.
Arguments Done {A} a.
Arguments Raise {A} e.
Arguments Panic {A}.

Definition M (A : Type) : Type := state → outcome A * state.

Definition ret {A} (a : A) : M A := λ s, (Done a, s).
Definition raise {A} (e : error) : M A := λ s, (Raise e, s).
Definition panic {A} : M A := λ s, (Panic, s).
Definition bind {A B} (m : M A) (k : A → M B) : M B :=
  λ s, match m s with
       | (Done a, s') => k a s'
       | (Raise e, s') => (Raise e, s')
       | (Panic, s') => (Panic, s')
       end.

Declare Scope go_scope.
Delimit Scope go_scope with go.
Notation "x <- m ;; k" := (bind m (λ x, k))
  (at level 100, m at level 99, k at level 200, right associativity) : go_scope.
Notation "m ;; k" := (bind m (λ _, k))
  (at level 100, k at level 200, right associativity) : go_scope.

(** [v, err := f(); if err != nil { return err }] *)
Definition try {A} (m : M (res A)) : M A :=
  bind m (λ r, match r with Ok a => ret a | Err e => raise e end).
Notation "x <~ m ;; k" := (bind (try m) (λ x, k))
  (at level 100, m at level 99, k at level 200, right associativity) : go_scope.

(** [if err != nil { return err }] on an error already at hand. *)
Definition check (err : option error) : M unit :=
  match err with Some e => raise e | None => ret tt end.

(** [*p] on a pointer that may be nil. *)
Definition deref {A} (p : option A) : M A :=
  match p with Some a => ret a | None => panic end.

Definition defer (d : deferred) : M unit :=
  λ s, (Done tt, set_defers (d :: defers s) s).

(** A deferred [os.RemoveAll] removes what is there (the [defer] statement
    drops its error); closing a reader changes nothing the state records. *)
Definition exec_deferred (d : deferred) (s : state) : state :=
  match d with
  | DRemoveAll p => log (CRemoveAll p) None (set_fs (remove p (fs s)) s)
  | DClose => log CCloseReader None s
  end.

Fixpoint run_deferred (ds : list deferred) (s : state) : state :=
  match ds with
  | [] => s
  | d :: ds' => run_deferred ds' (exec_deferred d s)
  end.

(** A Go function body: the calls deferred while it ran are executed, last
    one first, when it returns or panics. *)
Definition go_func {A} (body : M A) : M A :=
  λ s, match body (set_defers [] s) with
       | (o, s') => (o, set_defers (defers s) (run_deferred (defers s') s'))
       end.

(** ** The environment

    What the two packages call but do not define: the registry behind the
    client, the codecs, and the sources of faults, names and time. *)

Record Env := mkEnv {
  (** [Ref.CommonName] and [regclient.NewRef] *)
  CommonName : Ref → string;
  NewRef : string → res Ref;
  (** the manifest and the blob body the registry serves *)
  manifests : Ref → Manifest;
  blobs : Ref → string → Stream;
  (** the reader [BlobGet] hands back together with an error *)
  failed_reader : nat → option Stream;
  (** hex of the canonical (SHA-256) hash *)
  hexsum : bytes → string;
  (** [json.Unmarshal] into [ociv1.Image], [json.Marshal] of the image and
      of the manifest list *)
  Unmarshal : bytes → res Image;
  MarshalImage : Image → res bytes;
  MarshalManifests : list dockerTarManifest → res bytes;
  (** [archive.DecompressStream] and the bytes [archive.Tar] produces *)
  DecompressStream : Stream → res Stream;
  tarBytes : node → bytes;
  (** the n-th external call fails with [fault n]; a copy that fails has
      moved [short n] bytes by then *)
  fault : nat → option error;
  short : nat → nat;
  (** the random part of a temporary name and the wall clock *)
  rand : nat → string;
  now : nat → Time
}.

Section Program.

Variable E : Env.
Local Open Scope go_scope.

(** [digest.FromBytes], [digest.Canonical.FromBytes] and the digest a
    canonical digester returns for the bytes written to it. *)
Definition FromBytes (b : bytes) : Digest := "sha256:" +:+ hexsum E b.

Fixpoint after_sep (d : string) : option string :=
  match d with
  | EmptyString => None
  | String c d' => if decide (c = ":"%char) then Some d' else after_sep d'
  end.

(** [Digest.Encoded]: what follows the separator.  (go-digest panics on a
    digest without separator; the code only encodes digests that
    [FromBytes] built.) *)
Definition Encoded (d : Digest) : string := default d (after_sep d).

(** *** External calls *)

(** A call that touches the file system, or none of the state: it fails
    with the injected fault, if there is one, and with the error of [f]
    otherwise; either way it is logged. *)
Definition syscall {A} (c : call) (f : nat → node → res A * node) : M (res A) :=
  λ s, let n := length (trace s) in
       match fault E n with
       | Some e => (Done (Err e), log c (Some e) s)
       | None =>
           match f n (fs s) with
           | (r, root') => (Done r, log c (err_of r) (set_fs root' s))
           end
       end.

Definition ManifestGet (ref : Ref) : M (res Manifest) :=
  syscall (CManifestGet ref) (λ _ root, (Ok (manifests E ref), root)).

Definition ManifestPut (ref : Ref) (m : Manifest) : M (res unit) :=
  syscall (CManifestPut ref m) (λ _ root, (Ok tt, root)).

Definition BlobCopy (refSrc refTgt : Ref) (d : string) : M (res unit) :=
  syscall (CBlobCopy refSrc refTgt d) (λ _ root, (Ok tt, root)).

(** [BlobGet] returns its reader and its error side by side. *)
Definition BlobGet (ref : Ref) (d : string) (accept : list string)
  : M (option Stream * option error) :=
  λ s, let n := length (trace s) in
       match fault E n with
       | Some e => (Done (failed_reader E n, Some e), log (CBlobGet ref d accept) (Some e) s)
       | None => (Done (Some (blobs E ref d), None), log (CBlobGet ref d accept) None s)
       end.

(** [prefixAndSuffix] of [ioutil.TempDir]: the pattern is split at its last
    star, the random part goes in between. *)
Fixpoint split_star (pattern : string) : option (string * string) :=
  match pattern with
  | EmptyString => None
  | String c rest =>
      match split_star rest with
      | Some (pre, suf) => Some (String c pre, suf)
      | None => if decide (c = "*"%char) then Some ("", rest) else None
      end
  end.

Definition temp_name (pattern : string) (r : string) : string :=
  match split_star pattern with
  | Some (pre, suf) => pre +:+ r +:+ suf
  | None => pattern +:+ r
  end.

(** [ioutil.TempDir(dir, pattern)]; the empty [dir] is [os.TempDir()], the
    root of the tree. *)
Definition TempDir (dir : path) (pattern : string) : M (res path) :=
  syscall (CTempDir dir pattern) (λ n, fs_mkdir dir (temp_name pattern (rand E n))).

Definition OpenFile (p : path) : M (res path) :=
  syscall (COpenFile p) (λ n, fs_open_trunc p (now E n)).

Definition Rename (old new : path) : M (res unit) :=
  syscall (CRename old new) (λ _, fs_rename old new).

Definition Chtimes (p : path) (atime mtime : Time) : M (res unit) :=
  syscall (CChtimes p mtime) (λ _, fs_chtimes p mtime).

Definition WriteFile (p : path) (d : bytes) : M (res unit) :=
  syscall (CWriteFile p d) (λ n, fs_write_file p d (now E n)).

(** [archive.Tar(p, archive.Uncompressed)] *)
Definition Tar (p : path) : M (res Stream) :=
  syscall (CTar p) (λ _ root,
    match get p root with
    | Some n => (Ok (mkStream (tarBytes E n) None), root)
    | None => (Err (Errno "ENOENT"), root)
    end).

(** [ioutil.ReadAll] *)
Definition ReadAll (r : option Stream) : M (res bytes) :=
  match r with
  | None => panic
  | Some st => ret (match serr st with None => Ok (sdata st) | Some e => Err e end)
  end.

(** What a copy moves: all of the source, or its first [short n] bytes when
    the write fails. *)
Definition copied (n : nat) (src : Stream) : bytes * option error :=
  match fault E n with
  | Some e => (take (short E n) (sdata src), Some e)
  | None => (sdata src, serr src)
  end.

(** [io.Copy(lf, tr)] into an open file; [tr] tees what it reads into the
    digester, so the bytes moved are also the bytes hashed. *)
Definition CopyToFile (lf : path) (tr : Stream) : M (bytes * option error) :=
  λ s, let n := length (trace s) in
       let '(d, e) := copied n tr in
       match fs_append lf d (now E n) (fs s) with
       | (Ok _, root') => (Done (d, e), log (CCopyFile lf d) e (set_fs root' s))
       | (Err e', root') => (Done ([], Some e'), log (CCopyFile lf []) (Some e') (set_fs root' s))
       end.

(** [lf.Close()]: closing can fail like any other call, and the code does
    not look at what it returns. *)
Definition CloseFile (lf : path) : M unit :=
  λ s, (Done tt, log (CCloseFile lf) (fault E (length (trace s))) s).

(** [io.Copy(w, r)] into the output stream. *)
Definition CopyOut (r : option Stream) : M (res unit) :=
  match r with
  | None => panic
  | Some src =>
      λ s, let n := length (trace s) in
           let '(d, e) := copied n src in
           (Done (match e with None => Ok tt | Some e => Err e end),
            log (CCopyOut d) e (add_out d s))
  end.

Definition Fprintf_Stderr (line : string) : M unit :=
  λ s, (Done tt, add_stderr line s).

(** *** [cli.runLayerPull] *)

Definition runLayerPull (args : list string) : M unit :=
  arg0 <- deref (args !! 0) ;;
  ref <~ ret (NewRef E arg0) ;;
  arg1 <- deref (args !! 1) ;;
  got <- BlobGet ref arg1 [] ;;
  let '(blobIO, err) := got in
  copy <- CopyOut blobIO ;;
  let err := err_of copy in
  check err ;;
  ret tt.

(** *** [regClient.ImageCopy] *)

Fixpoint copyLayers (refSrc refTgt : Ref) (l : list Descriptor) : M unit :=
  match l with
  | [] => ret tt
  | layerSrc :: l' =>
      _ <~ BlobCopy refSrc refTgt (DescDigest layerSrc) ;;
      copyLayers refSrc refTgt l'
  end.

Definition ImageCopy (refSrc refTgt : Ref) : M unit :=
  m <~ ManifestGet refSrc ;;
  cd <~ ret (GetConfigDigest m) ;;
  _ <~ BlobCopy refSrc refTgt cd ;;
  l <~ ret (GetLayers m) ;;
  copyLayers refSrc refTgt l ;;
  _ <~ ManifestPut refTgt m ;;
  ret tt.

(** *** [regClient.ImageExport] *)

Definition mismatch_warning (cd confDigest : Digest) : string :=
  "Warning: digest for image config does not match, pulled " +:+ cd
  +:+ ", calculated " +:+ confDigest.

(** The body of the loop over the layers (one iteration). *)
Definition exportLayer (ref : Ref) (tempDir : path) (layerDesc : Descriptor)
    (acc : dockerTarManifest * Image) : M (dockerTarManifest * Image) :=
  let '(expManifest, conf) := acc in
  layerDir <~ TempDir tempDir "layer-*" ;;
  got <- BlobGet ref (DescDigest layerDesc) [] ;;
  let '(layerRComp, err) := got in
  check err ;;
  layerRComp <- deref layerRComp ;;
  defer DClose ;;
  layerTarStream <~ ret (DecompressStream E layerRComp) ;;
  let layerTarFile := Join layerDir "layer.tar" in
  lf <~ OpenFile layerTarFile ;;
  copy <- CopyToFile lf layerTarStream ;;
  let '(hashed, err) := copy in
  check err ;;
  CloseFile lf ;;
  let digestFull := FromBytes hashed in
  let digestHex := Encoded digestFull in
  let digestDir := Join tempDir digestHex in
  let digestFile := Join (Join [] digestHex) "layer.tar" in
  let digestFileFull := tempDir ++ digestFile in
  _ <~ Rename layerDir digestDir ;;
  created <- deref (Created conf) ;;
  _ <~ Chtimes digestFileFull created created ;;
  ret (set_Layers (Layers expManifest ++ [path_string digestFile]) expManifest,
       set_DiffIDs (RootFS_DiffIDs conf ++ [digestFull]) conf).

Fixpoint exportLayers (ref : Ref) (tempDir : path) (l : list Descriptor)
    (acc : dockerTarManifest * Image) : M (dockerTarManifest * Image) :=
  match l with
  | [] => ret acc
  | layerDesc :: l' =>
      acc' <- exportLayer ref tempDir layerDesc acc ;;
      exportLayers ref tempDir l' acc'
  end.

(** Lines 166-209: retrieve the config blob, compare its digest, decode it
    and reset its diff IDs. *)
Definition getConfig (ref : Ref) (m : Manifest) : M Image :=
  cd <~ ret (GetConfigDigest m) ;;
  got <- BlobGet ref cd [MediaTypeDocker2ImageConfig; MediaTypeImageConfig] ;;
  let '(confio, err) := got in
  check err ;;
  confstr <~ ReadAll confio ;;
  let confDigest := FromBytes confstr in
  (if decide (cd ≠ confDigest)
   then Fprintf_Stderr (mismatch_warning cd confDigest)
   else ret tt) ;;
  conf <~ ret (Unmarshal E confstr) ;;
  ret (set_DiffIDs [] conf).

(** Lines 273-312: write the config and the manifest list, then package the
    directory into the output stream. *)
Definition writeArchive (tempDir : path) (expManifest : dockerTarManifest)
    (conf : Image) : M unit :=
  confstr <~ ret (MarshalImage E conf) ;;
  let confDigest := FromBytes confstr in
  let confFile := Encoded confDigest +:+ ".json" in
  let confFileFull := Join tempDir confFile in
  _ <~ WriteFile confFileFull confstr ;;
  created <- deref (Created conf) ;;
  _ <~ Chtimes confFileFull created created ;;
  let expManifest := set_Config confFile expManifest in
  let ml := [expManifest] in
  mlj <~ ret (MarshalManifests E ml) ;;
  let manifestFile := Join tempDir "manifest.json" in
  _ <~ WriteFile manifestFile mlj ;;
  _ <~ Chtimes manifestFile 0%Z 0%Z ;;
  fs <~ Tar tempDir ;;
  defer DClose ;;
  _ <- CopyOut (Some fs) ;;
  ret tt.

(** Lines 162-312: what runs once the work directory exists and its
    removal is deferred. *)
Definition exportBody (ref : Ref) (m : Manifest) (tempDir : path)
    (expManifest : dockerTarManifest) : M unit :=
  conf <- getConfig ref m ;;
  l <~ ret (GetLayers m) ;;
  acc <- exportLayers ref tempDir l (expManifest, conf) ;;
  let '(expManifest, conf) := acc in
  writeArchive tempDir expManifest conf.

Definition ImageExport (ref : Ref) : M unit :=
  go_func (
    if decide (CommonName E ref = "") then raise ErrNotFound else
    let expManifest := mkTarManifest "" [] [] in
    let expManifest := set_RepoTags (RepoTags expManifest ++ [CommonName E ref]) expManifest in
    m <~ ManifestGet ref ;;
    tempDir <~ TempDir [] "regcli-export-" ;;
    defer (DRemoveAll tempDir) ;;
    exportBody ref m tempDir expManifest).

(** *** [regClient.ImageInspect]

    The Go function returns the image beside the error; the image that
    accompanies a non-nil error (the zero image, or what a failed decode
    left behind) is not part of the result here. *)
Definition ImageInspect (ref : Ref) : M Image :=
  m <~ ManifestGet ref ;;
  cd <~ ret (GetConfigDigest m) ;;
  got <- BlobGet ref cd [MediaTypeDocker2ImageConfig; MediaTypeImageConfig] ;;
  let '(imgIO, err) := got in
  check err ;;
  imgBody <~ ReadAll imgIO ;;
  img <~ ret (Unmarshal E imgBody) ;;
  ret img.

End Program.

(** ** Notions the statements are written with *)

(** The tree [root] with the top-level entry [T] set to [w]. *)
Definition graft (T : string) (w : node) (root : node) : node :=
  match root with
  | Dir es => Dir (<[T := w]> es)
  | File _ _ => root
  end.

Definition at_path {A} (p : path) (r : res A) : res path :=
  match r with Ok _ => Ok p | Err e => Err e end.

(** Lower-case hexadecimal strings, as [Digest.Encoded] yields them. *)
Definition hexdigit (c : ascii) : bool :=
  match c with
  | "0" | "1" | "2" | "3" | "4" | "5" | "6" | "7" | "8" | "9"
  | "a" | "b" | "c" | "d" | "e" | "f" => true
  | _ => false
  end%char.

Fixpoint all_hex (s : string) : bool :=
  match s with
  | EmptyString => true
  | String c s' => hexdigit c && all_hex s'
  end.

Definition is_hex (s : string) : bool :=
  match s with
  | EmptyString => false
  | String _ _ => all_hex s
  end.

Definition ok {A} (r : res A) : option A :=
  match r with Ok a => Some a | Err _ => None end.

Definition read_all (st : Stream) : option bytes :=
  match serr st with None => Some (sdata st) | Some _ => None end.

(** The decompressed byte stream of the layer a descriptor names. *)
Definition layer_plain (E : Env) (ref : Ref) (d : Descriptor) : option bytes :=
  match DecompressStream E (blobs E ref (DescDigest d)) with
  | Ok st => read_all st
  | Err _ => None
  end.

(** The directory one layer ends up as, and the directory of all layers. *)
Definition layer_dir (plain : bytes) (t : Time) : node :=
  Dir {["layer.tar" := File plain t]}.

Definition layers_tree (E : Env) (t : Time) (plains : list bytes)
    (ents : gmap string node) : gmap string node :=
  foldl (λ acc b, <[hexsum E b := layer_dir b t]> acc) ents plains.

(** The name [ioutil.TempDir] picks for the work directory of a run that
    starts with an empty trace: its call is the second one. *)
Definition workdir (E : Env) : path := [temp_name "regcli-export-" (rand E 1)].

(** The state in which the body of the export starts: manifest fetched,
    work directory created in [root1], its removal deferred. *)
Definition started (E : Env) (ref : Ref) (root1 : node) : state :=
  {| fs := root1; out := []; stderr := [];
     trace := [(CManifestGet ref, None); (CTempDir [] "regcli-export-", None)];
     defers := [DRemoveAll (workdir E)] |}.

(** The manifest entry the export starts from: the repo tag only. *)
Definition tagged (E : Env) (ref : Ref) : dockerTarManifest :=
  mkTarManifest "" [CommonName E ref] [].

Definition copied_ok (src tgt : Ref) (d : Descriptor) : event :=
  (CBlobCopy src tgt (DescDigest d), None).

(** An event that is a manifest push, successful or not. *)
Definition pushes (ev : event) : Prop := ∃ r m, ev.1 = CManifestPut r m.

(** The files [ioutil.WriteFile] wrote, named relative to the work
    directory, with their content. *)
Definition written (ev : event) : option (path * bytes) :=
  match ev with
  | (CWriteFile p d, None) => Some (drop 1 p, d)
  | _ => None
  end.

Definition written_files (tr : list event) : list (path * bytes) := omap written tr.

(** No directory has been renamed yet. *)
Definition norename (s : state) : Prop :=
  ∀ old new, (CRename old new, None) ∉ trace s.

(** No copy to the output stream has been attempted yet. *)
Definition nocopy (s : state) : Prop := ∀ d e, (CCopyOut d, e) ∉ trace s.

(** The deferred calls are [d0] below nothing but closes. *)
Definition closes_only (d0 : list deferred) (s : state) : Prop :=
  ∃ ds, defers s = ds ++ d0 ∧ Forall (λ d, d = DClose) ds.

(** The calls one loop iteration makes, and those of the final block. *)
Definition layer_call (c : call) : bool :=
  match c with
  | CTempDir _ _ | CBlobGet _ _ _ | COpenFile _ | CCopyFile _ _
  | CCloseFile _ | CRename _ _ | CChtimes _ _ => true
  | _ => false
  end.

Definition archive_call (c : call) : bool :=
  match c with
  | CWriteFile _ _ | CChtimes _ _ | CTar _ | CCopyOut _ => true
  | _ => false
  end.

(** A program keeps an invariant of the state, however it ends. *)
Definition preserves {A} (I : state → Prop) (m : M A) : Prop :=
  ∀ s o s', m s = (o, s') → I s → I s'.

(** Two environments with the same registry content and the same codecs;
    faults, temporary names, clock and tar encoder are free to differ. *)
Record same_registry (E1 E2 : Env) : Prop := {
  same_name : ∀ r, CommonName E1 r = CommonName E2 r;
  same_manifests : ∀ r, manifests E1 r = manifests E2 r;
  same_blobs : ∀ r d, blobs E1 r d = blobs E2 r d;
  same_hexsum : ∀ b, hexsum E1 b = hexsum E2 b;
  same_Unmarshal : ∀ b, Unmarshal E1 b = Unmarshal E2 b;
  same_MarshalImage : ∀ c, MarshalImage E1 c = MarshalImage E2 c;
  same_MarshalManifests : ∀ ml, MarshalManifests E1 ml = MarshalManifests E2 ml;
  same_Decompress : ∀ st, DecompressStream E1 st = DecompressStream E2 st
}.

(** A run in which nothing fails: no injected fault, a work directory name
    that is free, a manifest, a config and layers that can be fetched,
    decoded and decompressed, layers whose contents are pairwise distinct,
    and codecs that encode the results. *)
Record healthy (E : Env) (ref : Ref) (root : node) (cd : Digest) (conf0 : Image)
    (created : Time) (l : list Descriptor) (plains : list bytes)
    (confstr mlj : bytes) : Prop := {
  h_name : CommonName E ref ≠ "";
  h_fault : ∀ n, fault E n = None;
  h_root : ∃ es, root = Dir es ∧ es !! temp_name "regcli-export-" (rand E 1) = None;
  h_hex : ∀ b, is_hex (hexsum E b) = true;
  h_cd : GetConfigDigest (manifests E ref) = Ok cd;
  h_read : serr (blobs E ref cd) = None;
  h_conf : Unmarshal E (sdata (blobs E ref cd)) = Ok conf0;
  h_created : Created conf0 = Some created;
  h_layers : GetLayers (manifests E ref) = Ok l;
  h_plains : Forall2 (λ d b, layer_plain E ref d = Some b) l plains;
  h_distinct : NoDup (hexsum E <$> plains);
  h_confstr : MarshalImage E (set_DiffIDs (FromBytes E <$> plains) conf0) = Ok confstr;
  h_mlj :
    MarshalManifests E
      [mkTarManifest (hexsum E confstr +:+ ".json") [CommonName E ref]
         ((λ b, hexsum E b +:+ "/layer.tar") <$> plains)] = Ok mlj
}.

(** The work directory a healthy run packages. *)
Definition export_tree (E : Env) (created : Time) (plains : list bytes)
    (confstr mlj : bytes) : node :=
  Dir (<["manifest.json" := File mlj 0%Z]>
         (<[hexsum E confstr +:+ ".json" := File confstr created]>
            (layers_tree E created plains ∅))).

(** The calls a complete copy makes, in order. *)
Definition copy_plan (E : Env) (src tgt : Ref) : list call :=
  CManifestGet src ::
  match GetConfigDigest (manifests E src) with
  | Err _ => []
  | Ok cd =>
      CBlobCopy src tgt cd ::
      match GetLayers (manifests E src) with
      | Err _ => []
      | Ok l =>
          ((λ d, CBlobCopy src tgt (DescDigest d)) <$> l)
          ++ [CManifestPut tgt (manifests E src)]
      end
  end.

(** A call that succeeded. *)
Definition okev (c : call) : event := (c, None).

(** A run of events in which only the last one may have failed. *)
Definition only_last_fails (evs : list event) : Prop :=
  ∀ i ev, evs !! i = Some ev → S i < length evs → ev.2 = None.

(** The state apart from the trace. *)
Definition same_but_trace (s s' : state) : Prop :=
  fs s' = fs s ∧ out s' = out s ∧ stderr s' = stderr s ∧ defers s' = defers s.

(** An event that writes to the registry. *)
Definition registry_write (ev : event) : Prop :=
  (∃ r m, ev.1 = CManifestPut r m) ∨ (∃ src tgt d, ev.1 = CBlobCopy src tgt d).

(** No call so far wrote to the registry. *)
Definition quiet (s : state) : Prop := Forall (λ ev, ¬ registry_write ev) (trace s).

(** The tree [r] is [root] with a directory at the top-level name [T]. *)
Definition inside (T : string) (root r : node) : Prop :=
  ∃ ents, r = graft T (Dir ents) root.

(** The calls whose result the code does not look at: closing the layer
    file, the copy into the output stream, and the deferred closes and
    removal. *)
Definition unchecked (c : call) : bool :=
  match c with
  | CCloseFile _ | CCopyOut _ | CCloseReader | CRemoveAll _ => true
  | _ => false
  end.

(** Every call that failed so far is one whose result is not looked at. *)
Definition calls_ok (s : state) : Prop :=
  ∀ c e, (c, Some e) ∈ trace s → unchecked c = true.

(** ** The times of directories

    The tree keeps a modification time for files only.  The time of a
    directory that the run itself made follows from the calls of the run, as
    the operating system keeps it: the directory is made with the time of
    the call that made it, takes the time of every later call that creates,
    removes or renames an entry in it, and the time [os.Chtimes] gives it
    when called on the directory itself; writing to a file in it and
    [os.Chtimes] on such a file leave it alone, and a directory that is
    renamed keeps its time.  A directory is listed with its path, its time
    and the names in it. *)
Record dirent := mkDirent { dpath : path; dtime : Time; dnames : list string }.

Definition parent_dir (p : path) : path := removelast p.
Definition entry_name (p : path) : string := List.last p "".

Definition without (c : string) (l : list string) : list string :=
  filter (λ x, x ≠ c) l.

(** The directory [q] is modified at time [t]: its names become [f] of what
    they were. *)
Definition dir_modified (q : path) (t : Time) (f : list string → list string)
    (ds : list dirent) : list dirent :=
  (λ d, if decide (dpath d = q) then mkDirent q t (f (dnames d)) else d) <$> ds.

(** A file is opened for writing at [p]: its directory is modified when
    the file is new. *)
Definition file_made (p : path) (t : Time) (ds : list dirent) : list dirent :=
  (λ d, if decide (dpath d = parent_dir p ∧ entry_name p ∉ dnames d)
        then mkDirent (dpath d) t (entry_name p :: dnames d) else d) <$> ds.

(** What is left of [p] below [pre]. *)
Fixpoint below (pre p : path) : option path :=
  match pre, p with
  | [], _ => Some p
  | a :: pre', b :: p' => if decide (a = b) then below pre' p' else None
  | _ :: _, [] => None
  end.

(** A directory at or below [old] after [old] has been renamed to [new]. *)
Definition moved (old new : path) (d : dirent) : dirent :=
  match below old (dpath d) with
  | Some rest => mkDirent (new ++ rest) (dtime d) (dnames d)
  | None => d
  end.

(** The effect of the [n]-th call, when it succeeded. *)
Definition dir_step (E : Env) (n : nat) (ev : event) (ds : list dirent)
    : list dirent :=
  let t := now E n in
  match ev with
  | (CTempDir dir pattern, None) =>
      let c := temp_name pattern (rand E n) in
      mkDirent (dir ++ [c]) t [] :: dir_modified dir t (cons c) ds
  | (COpenFile p, None) | (CWriteFile p _, None) => file_made p t ds
  | (CRename old new, None) =>
      moved old new <$>
        dir_modified (parent_dir new) t
          (λ l, entry_name new :: without (entry_name new) l)
          (dir_modified (parent_dir old) t (without (entry_name old)) ds)
  | (CChtimes p mtime, None) =>
      (λ d, if decide (dpath d = p) then mkDirent p mtime (dnames d) else d) <$> ds
  | (CRemoveAll p, None) =>
      filter (λ d, below p (dpath d) = None)
        ((λ d, if decide (dpath d = parent_dir p ∧ entry_name p ∈ dnames d)
               then mkDirent (dpath d) t (without (entry_name p) (dnames d))
               else d) <$> ds)
  | _ => ds
  end.

Fixpoint dir_replay (E : Env) (n : nat) (tr : list event) (ds : list dirent)
    : list dirent :=
  match tr with
  | [] => ds
  | ev :: tr' => dir_replay E (S n) tr' (dir_step E n ev ds)
  end.

(** The calls of a run before [archive.Tar] reads the work directory. *)
Fixpoint until_tar (tr : list event) : list event :=
  match tr with
  | [] => []
  | (CTar _, _) :: _ => []
  | ev :: tr' => ev :: until_tar tr'
  end.

(** The directories [archive.Tar] finds, and the time it reads for one of
    them, in a run that started with an empty trace. *)
Definition packed_dirs (E : Env) (tr : list event) : list dirent :=
  dir_replay E 0 (until_tar tr) [].

Definition packed_dir_time (E : Env) (tr : list event) (p : path) : option Time :=
  dtime <$> List.find (λ d, bool_decide (dpath d = p)) (packed_dirs E tr).

(** The paths [os.Chtimes] was called on. *)
Definition chtimes_targets (tr : list event) : list path :=
  omap (λ ev : event, match ev.1 with CChtimes p _ => Some p | _ => None end) tr.

(** ** A small registry to run the programs on *)

Module Demo.

Definition hexchar (n : N) : ascii :=
  match n with
  | 0 => "0" | 1 => "1" | 2 => "2" | 3 => "3" | 4 => "4" | 5 => "5"
  | 6 => "6" | 7 => "7" | 8 => "8" | 9 => "9" | 10 => "a" | 11 => "b"
  | 12 => "c" | 13 => "d" | 14 => "e" | _ => "f"
  end%N%char.

Fixpoint hex_of (b : bytes) : string :=
  match b with
  | [] => ""
  | x :: b' =>
      String (hexchar (Byte.to_N x / 16))
        (String (hexchar (Byte.to_N x mod 16)) (hex_of b'))
  end.

(** A stand-in for the hash: injective, and hexadecimal like the real one. *)
Definition toy_hexsum (b : bytes) : string := "5a" +:+ hex_of b.

Definition L1 := mkDescriptor "application/vnd.docker.image.rootfs.diff.tar.gzip" "sha256:l1" 1.
Definition L2 := mkDescriptor "application/vnd.docker.image.rootfs.diff.tar.gzip" "sha256:l2" 1.
(** A third descriptor, whose blob decompresses to the content of [L1]. *)
Definition L3 := mkDescriptor "application/vnd.docker.image.rootfs.diff.tar.gzip" "sha256:l3" 1.

Definition two_layers := mkManifest (Ok "sha256:c0") (Ok [L1; L2]).
Definition twin_layers := mkManifest (Ok "sha256:c0") (Ok [L1; L3]).

Definition conf_bytes : bytes := [Byte.x7b; Byte.x7d].

Definition toy_blobs (r : Ref) (d : string) : Stream :=
  if decide (d = "sha256:l1") then mkStream [Byte.x1f; Byte.x0a] None
  else if decide (d = "sha256:l2") then mkStream [Byte.x1f; Byte.x0b] None
  else if decide (d = "sha256:l3") then mkStream [Byte.x1f; Byte.x0a] None
  else mkStream conf_bytes None.

(** Decompression drops the one-byte header. *)
Definition toy_decompress (st : Stream) : res Stream :=
  match sdata st with
  | [] => Err (Errno "EOF")
  | _ :: d => Ok (mkStream d (serr st))
  end.

Definition env (m : Manifest) (created : option Time) (flt : nat → option error)
    (salt : nat) : Env :=
  {| CommonName := Reference;
     NewRef := λ s, if decide (s = "") then Err ErrNotFound else Ok (mkRef "" "" "" "" s);
     manifests := λ _, m;
     blobs := toy_blobs;
     failed_reader := λ _, Some (mkStream [Byte.x00] None);
     hexsum := toy_hexsum;
     Unmarshal := λ b, Ok (mkImage created "layers" ["sha256:stale"] "{}");
     MarshalImage := λ c, Ok (list_byte_of_string (String.concat "," (RootFS_DiffIDs c)));
     MarshalManifests := λ ml,
       Ok (list_byte_of_string
             (String.concat ";" (flat_map (λ m, Config m :: RepoTags m ++ Layers m) ml)));
     DecompressStream := toy_decompress;
     tarBytes := λ n, match n with Dir es => repeat Byte.x01 (size es) | File d _ => d end;
     fault := flt;
     short := λ _, 1;
     rand := λ n, String (ascii_of_nat (48 + salt + n)) "";
     now := λ n, (5000 + Z.of_nat n)%Z |}.

Definition no_fault : nat → option error := λ _, None.
Definition fault_at (k : nat) : nat → option error :=
  λ n, if decide (n = k) then Some (ErrFault k) else None.

Definition ref0 := mkRef "registry.test" "repo" "tag" "" "registry.test/repo:tag".
Definition ref1 := mkRef "mirror.test" "repo" "tag" "" "mirror.test/repo:tag".
Definition unnamed := mkRef "" "" "" "" "".

Definition plain1 : bytes := [Byte.x0a].
Definition plain2 : bytes := [Byte.x0b].
Definition demo_conf := mkImage (Some 1000%Z) "layers" ["sha256:stale"] "{}".
Definition demo_confstr : bytes :=
  list_byte_of_string "sha256:5a0a,sha256:5a0b".
Definition demo_mlj : bytes :=
  list_byte_of_string
    "5a7368613235363a356130612c7368613235363a35613062.json;registry.test/repo:tag;5a0a/layer.tar;5a0b/layer.tar".

(** The same registry with a client that hands back no reader when a fetch
    fails. *)
Definition nil_reader (E : Env) : Env :=
  {| CommonName := CommonName E;
     NewRef := NewRef E;
     manifests := manifests E;
     blobs := blobs E;
     failed_reader := λ _, None;
     hexsum := hexsum E;
     Unmarshal := Unmarshal E;
     MarshalImage := MarshalImage E;
     MarshalManifests := MarshalManifests E;
     DecompressStream := DecompressStream E;
     tarBytes := tarBytes E;
     fault := fault E;
     short := short E;
     rand := rand E;
     now := now E |}.

(** The same registry [dt] later by the clock. *)
Definition later (dt : Z) (E : Env) : Env :=
  {| CommonName := CommonName E;
     NewRef := NewRef E;
     manifests := manifests E;
     blobs := blobs E;
     failed_reader := failed_reader E;
     hexsum := hexsum E;
     Unmarshal := Unmarshal E;
     MarshalImage := MarshalImage E;
     MarshalManifests := MarshalManifests E;
     DecompressStream := DecompressStream E;
     tarBytes := tarBytes E;
     fault := fault E;
     short := short E;
     rand := rand E;
     now := λ n, (now E n + dt)%Z |}.

End Demo.

(** * Properties *)

(** ** The file system *)

Lemma put_cons_cons a c q x es :
  put (a :: c :: q) x (Dir es) =
  match es !! a with
  | Some n' =>
      match put (c :: q) x n' with
      | Some n'' => Some (Dir (<[a := n'']> es))
      | None => None
      end
  | None => None
  end.
Proof. reflexivity. Qed.

Lemma get_remove (p : path) (n : node) : p ≠ [] → get p (remove p n) = None.
Proof.
  revert n. induction p as [|c p IH]; [done|]. intros n _.
  destruct n as [|es]; [done|]. destruct p as [|c' p].
  - simpl. by rewrite lookup_delete_eq.
  - cbn [remove]. destruct (es !! c) as [n'|] eqn:Hc.
    + cbn [get]. rewrite lookup_insert_eq. by apply IH.
    + cbn [get]. by rewrite Hc.
Qed.

Lemma get_snoc_parent (p : path) (c : string) (n x : node) :
  get (p ++ [c]) n = Some x → ∃ es, get p n = Some (Dir es).
Proof.
  revert n. induction p as [|a p IH]; intros n; simpl.
  - destruct n as [|es]; [done|]. eauto.
  - destruct n as [|es]; [done|]. destruct (es !! a); [apply IH|done].
Qed.

(** A directory cannot be renamed to its own parent. *)
Lemma fs_rename_to_parent (p : path) (c : string) (root root' : node) :
  fs_rename (p ++ [c]) p root ≠ (Ok tt, root').
Proof.
  unfold fs_rename. destruct (get (p ++ [c]) root) as [src|] eqn:Hsrc; [|done].
  apply get_snoc_parent in Hsrc as [es ->]. done.
Qed.

Lemma graft_graft T w w' root : graft T w (graft T w' root) = graft T w root.
Proof. destruct root; simpl; [done|]. by rewrite insert_insert_eq. Qed.

Lemma get_graft_dir T w root : is_dir root = true → get [T] (graft T w root) = Some w.
Proof. destruct root; [done|]. simpl. by rewrite lookup_insert_eq. Qed.

(** What happens below a top-level directory [T] only depends on that
    directory, and only changes it. *)
Section Under.
Context {T : string} {root w0 : node}.
Context (Hw : get [T] root = Some w0).

Lemma root_dir : ∃ es, root = Dir es ∧ es !! T = Some w0.
Proof using Hw.
  destruct root as [|es]; simpl in Hw; [discriminate|].
  exists es. destruct (es !! T); [|discriminate]. by inversion Hw.
Qed.

Lemma graft_same : graft T w0 root = root.
Proof using Hw. destruct root_dir as (es & -> & H). simpl. by rewrite insert_id. Qed.

Lemma get_under q : get (T :: q) root = get q w0.
Proof using Hw. destruct root_dir as (es & -> & H). simpl. by rewrite H. Qed.

Lemma put_under q x :
  q ≠ [] → put (T :: q) x root = (λ w, graft T w root) <$> put q x w0.
Proof using Hw.
  destruct root_dir as (es & -> & H). destruct q as [|c q]; [done|intros _].
  rewrite put_cons_cons, H. destruct (put (c :: q) x w0); reflexivity.
Qed.

Lemma remove_under q : q ≠ [] → remove (T :: q) root = graft T (remove q w0) root.
Proof using Hw.
  destruct root_dir as (es & -> & H). destruct q as [|c q]; [done|intros _].
  cbn [remove]. rewrite H. reflexivity.
Qed.

Lemma put_remove_under q1 q2 x :
  q1 ≠ [] → q2 ≠ [] →
  put (T :: q2) x (remove (T :: q1) root) =
  (λ w, graft T w root) <$> put q2 x (remove q1 w0).
Proof using Hw.
  intros H1 H2. rewrite remove_under by done.
  destruct root_dir as (es & -> & H). destruct q2 as [|c q2]; [done|].
  cbn [graft]. rewrite put_cons_cons, lookup_insert_eq.
  destruct (put (c :: q2) x (remove q1 w0)); [|reflexivity].
  cbn. by rewrite insert_insert_eq.
Qed.

Lemma fs_write_file_under q d now :
  q ≠ [] →
  fs_write_file (T :: q) d now root =
  (let '(r, w) := fs_write_file q d now w0 in (r, graft T w root)).
Proof using Hw.
  intros Hq. unfold fs_write_file. rewrite get_under, put_under by done.
  destruct (get q w0) as [[|?]|], (put q (File d now) w0); simpl; by rewrite ?graft_same.
Qed.

Lemma fs_open_trunc_under q now :
  q ≠ [] →
  fs_open_trunc (T :: q) now root =
  (let '(r, w) := fs_open_trunc q now w0 in (at_path (T :: q) r, graft T w root)).
Proof using Hw.
  intros Hq. unfold fs_open_trunc. rewrite get_under, put_under by done.
  destruct (get q w0) as [[|?]|], (put q (File [] now) w0); simpl; by rewrite ?graft_same.
Qed.

Lemma fs_append_under q d now :
  q ≠ [] →
  fs_append (T :: q) d now root =
  (let '(r, w) := fs_append q d now w0 in (r, graft T w root)).
Proof using Hw.
  intros Hq. unfold fs_append. rewrite get_under.
  destruct (get q w0) as [[d0 t|?]|]; rewrite ?put_under by done;
    try (by rewrite graft_same).
  destruct (put q _ w0); simpl; by rewrite ?graft_same.
Qed.

Lemma fs_chtimes_under q t :
  q ≠ [] →
  fs_chtimes (T :: q) t root =
  (let '(r, w) := fs_chtimes q t w0 in (r, graft T w root)).
Proof using Hw.
  intros Hq. unfold fs_chtimes. rewrite get_under.
  destruct (get q w0) as [[d0 t0|?]|]; rewrite ?put_under by done;
    try (by rewrite graft_same).
  destruct (put q _ w0); simpl; by rewrite ?graft_same.
Qed.

Lemma fs_mkdir_under name :
  fs_mkdir [T] name root =
  (let '(r, w) := fs_mkdir [] name w0 in (at_path [T; name] r, graft T w root)).
Proof using Hw.
  unfold fs_mkdir. rewrite Hw. cbn [get].
  change ([T] ++ [name]) with [T; name]. rewrite (put_under [name]) by done.
  pose proof graft_same as Hg. clear Hw.
  destruct w0 as [d t|ents]; cbn; rewrite ?Hg; try done.
  destruct (ents !! name); cbn; rewrite ?Hg; done.
Qed.

Lemma prefix_cons_iff (q1 q2 : path) : (T :: q1) `prefix_of` (T :: q2) ↔ q1 `prefix_of` q2.
Proof.
  split.
  - intros [k Hk]. exists k. by inversion Hk.
  - intros [k ->]. by exists k.
Qed.

Lemma fs_rename_under q1 q2 :
  q1 ≠ [] → is_dir w0 = true →
  fs_rename (T :: q1) (T :: q2) root =
  (let '(r, w) := fs_rename q1 q2 w0 in (r, graft T w root)).
Proof using Hw.
  intros H1 Hd. unfold fs_rename. rewrite !get_under.
  pose proof graft_same as Hg.
  destruct (get q1 w0) as [src|] eqn:Hsrc; [|by rewrite Hg].
  destruct q2 as [|c q2].
  { cbn [get]. clear Hw Hsrc. destruct w0; [done|]. by rewrite Hg. }
  rewrite !put_remove_under by done.
  destruct (get (c :: q2) w0) as [[]|] eqn:Hnew.
  - destruct (is_dir src); [by rewrite Hg|].
    destruct (put _ _ _); cbn; by rewrite ?Hg.
  - by rewrite Hg.
  - destruct (decide (_ `prefix_of` _)) as [Hp|Hp];
      destruct (decide (q1 `prefix_of` _)) as [Hp'|Hp'];
      try (by rewrite Hg);
      try (exfalso; apply Hp'; by apply prefix_cons_iff);
      try (exfalso; apply Hp; by apply prefix_cons_iff).
    destruct (put _ _ _); cbn; by rewrite ?Hg.
Qed.

End Under.

(** The operations of one export inside its work directory. *)
Lemma mkdir_local name ents :
  ents !! name = None →
  fs_mkdir [] name (Dir ents) = (Ok [name], Dir (<[name := Dir ∅]> ents)).
Proof. intros H. unfold fs_mkdir. simpl. by rewrite H. Qed.

Lemma open_local L f es ents now :
  ents !! L = Some (Dir es) → es !! f = None →
  fs_open_trunc [L; f] now (Dir ents) =
  (Ok [L; f], Dir (<[L := Dir (<[f := File [] now]> es)]> ents)).
Proof. intros H1 H2. unfold fs_open_trunc. simpl. by rewrite H1, H2. Qed.

Lemma append_local L f es ents d0 t d now :
  ents !! L = Some (Dir es) → es !! f = Some (File d0 t) →
  fs_append [L; f] d now (Dir ents) =
  (Ok tt, Dir (<[L := Dir (<[f := File (d0 ++ d) now]> es)]> ents)).
Proof. intros H1 H2. unfold fs_append. simpl. by rewrite H1, H2. Qed.

Lemma rename_local L h src ents :
  ents !! L = Some src → ents !! h = None → L ≠ h →
  fs_rename [L] [h] (Dir ents) = (Ok tt, Dir (<[h := src]> (delete L ents))).
Proof.
  intros H1 H2 Hne. unfold fs_rename. simpl. rewrite H1, H2.
  rewrite decide_False; [done|]. intros [k Hk]. simplify_eq/=.
Qed.

(** The case the export does not handle: the target exists. *)
Lemma rename_local_exists L h src es ents :
  ents !! L = Some src → ents !! h = Some (Dir es) →
  fs_rename [L] [h] (Dir ents) = (Err (Errno "EEXIST"), Dir ents).
Proof. intros H1 H2. unfold fs_rename. simpl. by rewrite H1, H2. Qed.

Lemma chtimes_local h f es ents d t0 t :
  ents !! h = Some (Dir es) → es !! f = Some (File d t0) →
  fs_chtimes [h; f] t (Dir ents) =
  (Ok tt, Dir (<[h := Dir (<[f := File d t]> es)]> ents)).
Proof. intros H1 H2. unfold fs_chtimes. simpl. by rewrite H1, H2. Qed.

Lemma chtimes_local_top f ents d t0 t :
  ents !! f = Some (File d t0) →
  fs_chtimes [f] t (Dir ents) = (Ok tt, Dir (<[f := File d t]> ents)).
Proof. intros H1. unfold fs_chtimes. simpl. by rewrite H1. Qed.

Lemma write_local f ents d now :
  (∀ es, ents !! f ≠ Some (Dir es)) →
  fs_write_file [f] d now (Dir ents) = (Ok tt, Dir (<[f := File d now]> ents)).
Proof.
  intros H. unfold fs_write_file. simpl.
  destruct (ents !! f) as [[|es]|] eqn:Hf; try done. by destruct (H es).
Qed.

Lemma Join_ne p e : e ≠ "" → Join p e = p ++ [e].
Proof. intros H. unfold Join. by rewrite decide_False. Qed.

(** ** Names *)

Lemma is_hex_nonempty s : is_hex s = true → s ≠ "".
Proof. by destruct s. Qed.

Lemma all_hex_app a b : all_hex (a +:+ b) = all_hex a && all_hex b.
Proof. induction a as [|c a IH]; simpl; [done|]. by rewrite IH, andb_assoc. Qed.

Lemma is_hex_all s : is_hex s = true → all_hex s = true.
Proof. by destruct s. Qed.

Lemma json_not_hex h : is_hex (h +:+ ".json") = false.
Proof.
  destruct (is_hex (h +:+ ".json")) eqn:H; [|done].
  apply is_hex_all in H. rewrite all_hex_app in H.
  by rewrite andb_false_r in H.
Qed.

Lemma json_nonempty h : h +:+ ".json" ≠ "".
Proof. by destruct h. Qed.

Lemma layer_name_not_hex r : is_hex (temp_name "layer-*" r) = false.
Proof. reflexivity. Qed.

(** ** Running a program one call at a time *)

Section Steps.
Variable E : Env.

Lemma bind_inv {A B} (m : M A) (k : A → M B) s o s' :
  bind m k s = (o, s') →
  (∃ a s1, m s = (Done a, s1) ∧ k a s1 = (o, s')) ∨
  (∃ e, m s = (Raise e, s') ∧ o = Raise e) ∨
  (m s = (Panic, s') ∧ o = Panic).
Proof.
  unfold bind. destruct (m s) as [[a|e|] s1]; intros H.
  - left. eauto.
  - right. left. inversion H; subst. eauto.
  - right. right. inversion H; subst. eauto.
Qed.

Lemma bind_ret {A B} (a : A) (k : A → M B) s : bind (ret a) k s = k a s.
Proof. reflexivity. Qed.

Lemma bind_try_ret {A B} (r : res A) (k : A → M B) s :
  bind (try (ret r)) k s = match r with Ok a => k a s | Err e => (Raise e, s) end.
Proof. by destruct r. Qed.

Lemma bind_check {B} err (k : unit → M B) s :
  bind (check err) k s = match err with Some e => (Raise e, s) | None => k tt s end.
Proof. by destruct err. Qed.

Lemma bind_deref {A B} (p : option A) (k : A → M B) s :
  bind (deref p) k s = match p with Some a => k a s | None => (Panic, s) end.
Proof. by destruct p. Qed.

Lemma bind_defer {B} d (k : unit → M B) s :
  bind (defer d) k s = k tt (set_defers (d :: defers s) s).
Proof. reflexivity. Qed.

Lemma bind_CloseFile {B} lf (k : unit → M B) s :
  bind (CloseFile E lf) k s =
  k tt (log (CCloseFile lf) (fault E (length (trace s))) s).
Proof. reflexivity. Qed.

Lemma bind_Fprintf {B} l (k : unit → M B) s :
  bind (Fprintf_Stderr l) k s = k tt (add_stderr l s).
Proof. reflexivity. Qed.

Lemma bind_call {A B} c (f : nat → node → res A * node) (k : A → M B) s :
  bind (try (syscall E c f)) k s =
  match fault E (length (trace s)) with
  | Some e => (Raise e, log c (Some e) s)
  | None =>
      match f (length (trace s)) (fs s) with
      | (Ok a, root') => k a (log c None (set_fs root' s))
      | (Err e, root') => (Raise e, log c (Some e) (set_fs root' s))
      end
  end.
Proof.
  unfold try, bind, syscall, ret, raise. cbv beta.
  destruct (fault E _); [reflexivity|].
  destruct (f _ _) as [[a|e] root']; reflexivity.
Qed.

Lemma bind_BlobGet {B} ref d acc (k : option Stream * option error → M B) s :
  bind (BlobGet E ref d acc) k s =
  match fault E (length (trace s)) with
  | Some e =>
      k (failed_reader E (length (trace s)), Some e)
        (log (CBlobGet ref d acc) (Some e) s)
  | None => k (Some (blobs E ref d), None) (log (CBlobGet ref d acc) None s)
  end.
Proof. unfold bind, BlobGet. cbv beta zeta. by destruct (fault E _). Qed.

Lemma bind_CopyToFile {B} lf tr (k : bytes * option error → M B) s :
  bind (CopyToFile E lf tr) k s =
  let n := length (trace s) in
  match fs_append lf (copied E n tr).1 (now E n) (fs s) with
  | (Ok _, root') =>
      k (copied E n tr)
        (log (CCopyFile lf (copied E n tr).1) (copied E n tr).2 (set_fs root' s))
  | (Err e', root') =>
      k ([], Some e') (log (CCopyFile lf []) (Some e') (set_fs root' s))
  end.
Proof.
  unfold bind, CopyToFile. cbv beta zeta. destruct (copied E _ tr) as [d e]. simpl.
  destruct (fs_append _ _ _ _) as [[[]|e'] root']; reflexivity.
Qed.

Lemma bind_CopyOut {B} src (k : res unit → M B) s :
  bind (CopyOut E (Some src)) k s =
  let n := length (trace s) in
  k (match (copied E n src).2 with None => Ok tt | Some e => Err e end)
    (log (CCopyOut (copied E n src).1) (copied E n src).2
       (add_out (copied E n src).1 s)).
Proof. unfold bind, CopyOut. cbv beta zeta. by destruct (copied E _ src) as [d e]. Qed.

Lemma copied_ok_inv n tr d : copied E n tr = (d, None) → d = sdata tr ∧ serr tr = None.
Proof. unfold copied. destruct (fault E n); [done|]. by intros [= <- ->]. Qed.

Lemma Encoded_FromBytes b : Encoded (FromBytes E b) = hexsum E b.
Proof. reflexivity. Qed.

Lemma set_defers_same s : set_defers (defers s) s = s.
Proof. by destruct s. Qed.

(** ** [ImageExport]: the guard on the common name *)

(** C8.  When the reference has no common name, [ImageExport] returns
    [ErrNotFound] and leaves the state as it found it: the trace is
    unchanged, so neither the registry nor the file system was called. *)
Theorem ImageExport_no_common_name ref s :
  CommonName E ref = "" → ImageExport E ref s = (Raise ErrNotFound, s).
Proof.
  intros Hn. unfold ImageExport, go_func. rewrite decide_True by done.
  destruct s; reflexivity.
Qed.

(** ** [runLayerPull] *)

(** C10.  The result of [runLayerPull] is the error of [NewRef] or the
    outcome of the copy to standard output; the error [BlobGet] returned
    takes no part in it.  In particular, when the fetch fails but hands back
    a reader that can be copied, the command reports success. *)
Theorem runLayerPull_drops_fetch_error arg0 arg1 s :
  match NewRef E arg0 with
  | Err e => runLayerPull E [arg0; arg1] s = (Raise e, s)
  | Ok ref =>
      ∃ blobIO err s1,
        BlobGet E ref arg1 [] s = (Done (blobIO, err), s1) ∧
        runLayerPull E [arg0; arg1] s =
          match CopyOut E blobIO s1 with
          | (Done (Ok _), s2) => (Done tt, s2)
          | (Done (Err e), s2) => (Raise e, s2)
          | (Raise e, s2) => (Raise e, s2)
          | (Panic, s2) => (Panic, s2)
          end ∧
        ∀ e src,
          fault E (length (trace s)) = Some e →
          failed_reader E (length (trace s)) = Some src →
          serr src = None →
          fault E (S (length (trace s))) = None →
          err = Some e ∧
          ∃ s2, runLayerPull E [arg0; arg1] s = (Done tt, s2) ∧
                out s2 = out s ++ sdata src
  end.
Proof.
  unfold runLayerPull.
  change ([arg0; arg1] !! 0) with (Some arg0).
  change ([arg0; arg1] !! 1) with (Some arg1).
  rewrite bind_deref, bind_try_ret.
  destruct (NewRef E arg0) as [ref|e]; [|reflexivity].
  rewrite bind_deref, bind_BlobGet.
  destruct (BlobGet E ref arg1 [] s) as [o1 s1] eqn:HB.
  unfold BlobGet in HB.
  destruct (fault E (length (trace s))) as [e|] eqn:Hf; injection HB as <- <-.
  - eexists _, _, _. split; [reflexivity|]. split.
    + unfold bind at 1.
      destruct (CopyOut E _ _) as [[[[]|e']|e'|] s2]; reflexivity.
    + intros e0 src [= <-] Hr Hs Hf'. split; [done|].
      rewrite Hr, bind_CopyOut. cbv zeta. unfold copied.
      cbn [trace log]. rewrite length_app, Nat.add_1_r, Hf', Hs. cbn.
      eexists. split; reflexivity.
  - eexists _, _, _. split; [reflexivity|]. split.
    + unfold bind at 1.
      destruct (CopyOut E _ _) as [[[[]|e']|e'|] s2]; reflexivity.
    + intros e0 src [=].
Qed.

(** ** [ImageCopy] *)

Lemma copyLayers_trace src tgt l s o s' :
  copyLayers E src tgt l s = (o, s') →
  ∃ evs, trace s' = trace s ++ evs ∧
         (∀ r m e, (CManifestPut r m, e) ∉ evs) ∧
         (o = Done tt → evs = copied_ok src tgt <$> l).
Proof.
  revert s. induction l as [|d l IH]; intros s; simpl.
  - intros [= <- <-]. exists []. rewrite app_nil_r. split_and!; auto.
    intros r m e H; inversion H.
  - unfold BlobCopy. rewrite bind_call.
    destruct (fault E _) as [e|].
    + intros [= <- <-]. eexists. split; [reflexivity|]. split; [|done].
      intros r m e0 [[=]|Hin]%elem_of_cons. inversion Hin.
    + intros H. apply IH in H as (evs & Htr' & Hput & Hok).
      exists ((CBlobCopy src tgt (DescDigest d), None) :: evs).
      rewrite Htr'. cbn. rewrite <- app_assoc. split_and!; auto.
      * intros r m e [[=]|Hin]%elem_of_cons. by eapply Hput.
      * intros Ho. rewrite (Hok Ho). reflexivity.
Qed.

(** C1.  In a run of [ImageCopy], a manifest push, successful or not, is
    the last event and comes after the successful fetch of the source
    manifest, the successful copy of the config blob and the successful
    copy of every layer in manifest order; so a run in which any other call
    failed contains no push at all. *)
Theorem ImageCopy_push_last src tgt s o s' :
  ImageCopy E src tgt s = (o, s') →
  ∃ evs, trace s' = trace s ++ evs ∧
    (∀ ev, ev ∈ evs → pushes ev →
       ∃ cd l,
         GetConfigDigest (manifests E src) = Ok cd ∧
         GetLayers (manifests E src) = Ok l ∧
         evs = (CManifestGet src, None) :: (CBlobCopy src tgt cd, None)
               :: (copied_ok src tgt <$> l)
               ++ [(CManifestPut tgt (manifests E src), ev.2)]) ∧
    (∀ ev ev', ev ∈ evs → ¬ pushes ev → is_Some ev.2 → ev' ∈ evs → ¬ pushes ev').
Proof.
  intros H.
  assert (∃ evs, trace s' = trace s ++ evs ∧
    (∀ ev, ev ∈ evs → pushes ev →
       ∃ cd l,
         GetConfigDigest (manifests E src) = Ok cd ∧
         GetLayers (manifests E src) = Ok l ∧
         evs = (CManifestGet src, None) :: (CBlobCopy src tgt cd, None)
               :: (copied_ok src tgt <$> l)
               ++ [(CManifestPut tgt (manifests E src), ev.2)]))
    as (evs & Htr & Hpush).
  2:{ exists evs. split_and!; auto.
      intros ev ev' Hev Hnp [e He] Hev' Hp'.
      destruct (Hpush ev' Hev' Hp') as (cd & l & _ & _ & ->).
      apply Hnp. clear Hpush Htr Hev'.
      rewrite !elem_of_cons, elem_of_app, list_elem_of_fmap, list_elem_of_singleton in Hev.
      destruct Hev as [->|[->|[(d & -> & _)| ->]]]; try discriminate He.
      exists tgt, (manifests E src). reflexivity. }
  unfold ImageCopy, ManifestGet, BlobCopy, ManifestPut in H.
  rewrite bind_call in H. destruct (fault E (length (trace s))) as [e|].
  { injection H as <- <-. eexists; split; [reflexivity|].
    intros ev ->%list_elem_of_singleton (r & m & [=]). }
  rewrite bind_try_ret in H.
  destruct (GetConfigDigest (manifests E src)) as [cd|e] eqn:Hcd.
  2:{ injection H as <- <-. eexists; split; [reflexivity|].
      intros ev ->%list_elem_of_singleton (r & m & [=]). }
  rewrite bind_call in H. destruct (fault E _) as [e|].
  { injection H as <- <-. eexists; split; [cbn; rewrite <- app_assoc; reflexivity|].
    intros ev [->|[->|[]%elem_of_nil]%elem_of_cons]%elem_of_cons (r & m & [=]). }
  rewrite bind_try_ret in H.
  destruct (GetLayers (manifests E src)) as [l|e] eqn:Hl.
  2:{ injection H as <- <-. eexists; split; [cbn; rewrite <- app_assoc; reflexivity|].
      intros ev [->|[->|[]%elem_of_nil]%elem_of_cons]%elem_of_cons (r & m & [=]). }
  apply bind_inv in H as [([] & s3 & Hc & H) | [(e & Hc & ->) | (Hc & ->)]];
    apply copyLayers_trace in Hc as (evs & Htr3 & Hnp & Hok); cbn in Htr3.
  2,3: eexists; split; [rewrite Htr3, <- !app_assoc; reflexivity|]; simpl;
       intros ev [->|[->|Hin]%elem_of_cons]%elem_of_cons (r & m & Hr); try discriminate Hr;
       destruct ev as [c e']; simpl in Hr; subst c; destruct (Hnp _ _ _ Hin).
  specialize (Hok eq_refl). subst evs.
  assert (∃ e, trace s' = trace s3 ++ [(CManifestPut tgt (manifests E src), e)]) as [e Htr4].
  { rewrite bind_call in H. destruct (fault E _) as [e|]; injection H as <- <-; eauto. }
  eexists. split; [rewrite Htr4, Htr3, <- !app_assoc; reflexivity|]. simpl.
  intros ev Hev Hp. exists cd, l. split_and!; auto. do 3 f_equal.
  rewrite !elem_of_cons, elem_of_app, list_elem_of_fmap, list_elem_of_singleton in Hev.
  destruct Hp as (r & m & Hp).
  destruct Hev as [->|[->|[(d & -> & _)| ->]]]; try discriminate Hp. reflexivity.
Qed.

End Steps.

(** ** Invariants that every call keeps *)

Section Preserves.
Variable E : Env.
Variables (I : state → Prop) (oke : event → Prop).
Hypothesis I_fs : ∀ r s, I s → I (set_fs r s).
Hypothesis I_out : ∀ d s, I s → I (add_out d s).
Hypothesis I_stderr : ∀ l s, I s → I (add_stderr l s).
Hypothesis I_log : ∀ c e s, oke (c, e) → I s → I (log c e s).
Hypothesis I_defer : ∀ s, I s → I (set_defers (DClose :: defers s) s).

Lemma preserves_ret {A} (a : A) : preserves I (ret a).
Proof. by intros s o s' [= <- <-]. Qed.

Lemma preserves_raise {A} e : preserves I (@raise A e).
Proof. by intros s o s' [= <- <-]. Qed.

Lemma preserves_panic {A} : preserves I (@panic A).
Proof. by intros s o s' [= <- <-]. Qed.

Lemma preserves_bind {A B} (m : M A) (k : A → M B) :
  preserves I m → (∀ a, preserves I (k a)) → preserves I (bind m k).
Proof.
  intros Hm Hk s o s' H Hs.
  apply bind_inv in H as [(a & s1 & H1 & H2) | [(e & H1 & _) | (H1 & _)]]; eauto.
  eapply Hk; eauto.
Qed.

Lemma preserves_try {A} (m : M (res A)) : preserves I m → preserves I (try m).
Proof.
  intros Hm. apply preserves_bind; [done|].
  intros [a|e]; [apply preserves_ret|apply preserves_raise].
Qed.

Lemma preserves_check err : preserves I (check err).
Proof. destruct err; [apply preserves_raise|apply preserves_ret]. Qed.

Lemma preserves_deref {A} (p : option A) : preserves I (deref p).
Proof. destruct p; [apply preserves_ret|apply preserves_panic]. Qed.

Lemma preserves_defer : preserves I (defer DClose).
Proof using I_defer. intros s o s' [= <- <-]. apply I_defer. Qed.

Lemma preserves_syscall {A} c (f : nat → node → res A * node) :
  (∀ e, oke (c, e)) → preserves I (syscall E c f).
Proof using I_fs I_log.
  intros Hc s o s' H Hs. unfold syscall in H.
  destruct (fault E _); [|destruct (f _ _)]; injection H as <- <-; auto.
Qed.

Lemma preserves_BlobGet ref d acc :
  (∀ e, oke (CBlobGet ref d acc, e)) → preserves I (BlobGet E ref d acc).
Proof using I_log.
  intros Hc s o s' H Hs. unfold BlobGet in H.
  destruct (fault E _); injection H as <- <-; auto.
Qed.

Lemma preserves_CopyToFile lf tr :
  (∀ d e, oke (CCopyFile lf d, e)) → preserves I (CopyToFile E lf tr).
Proof using I_fs I_log.
  intros Hc s o s' H Hs. unfold CopyToFile in H. cbv zeta in H.
  destruct (copied E _ tr), (fs_append _ _ _ _) as [[] ?]; injection H as <- <-; auto.
Qed.

Lemma preserves_CloseFile lf :
  (∀ e, oke (CCloseFile lf, e)) → preserves I (CloseFile E lf).
Proof using I_log. intros Hc s o s' [= <- <-] Hs. auto. Qed.

Lemma preserves_CopyOut r :
  (∀ d e, oke (CCopyOut d, e)) → preserves I (CopyOut E r).
Proof using I_out I_log.
  intros Hc s o s' H Hs. destruct r as [src|]; [|by injection H as <- <-].
  unfold CopyOut in H. cbv zeta in H.
  destruct (copied E _ src); injection H as <- <-; auto.
Qed.

Lemma preserves_Fprintf l : preserves I (Fprintf_Stderr l).
Proof using I_stderr. intros s o s' [= <- <-] Hs. auto. Qed.

Lemma preserves_ReadAll r : preserves I (ReadAll r).
Proof. destruct r; [apply preserves_ret|apply preserves_panic]. Qed.

Ltac preserve :=
  repeat first
    [ apply preserves_try
    | apply preserves_bind; [|intros ?]
    | apply preserves_ret
    | apply preserves_raise
    | apply preserves_check
    | apply preserves_deref
    | apply preserves_defer
    | apply preserves_Fprintf
    | apply preserves_ReadAll
    | apply preserves_syscall; intros ?
    | apply preserves_BlobGet; intros ?
    | apply preserves_CopyToFile; intros ? ?
    | apply preserves_CopyOut; intros ? ?
    | apply preserves_CloseFile; intros ?
    | match goal with
      | |- preserves _ (let '(_, _) := ?x in _) => destruct x
      | |- preserves _ (if ?b then _ else _) => destruct b
      end ].

Lemma preserves_getConfig ref m :
  (∀ r d a e, oke (CBlobGet r d a, e)) → preserves I (getConfig E ref m).
Proof using I_stderr I_log.
  intros Hc. unfold getConfig. preserve; auto.
Qed.

Lemma preserves_exportLayer ref tempDir d acc :
  (∀ c e, layer_call c = true → oke (c, e)) →
  preserves I (exportLayer E ref tempDir d acc).
Proof using I_fs I_log I_defer.
  intros Hc. unfold exportLayer, TempDir, OpenFile, Rename, Chtimes.
  destruct acc. preserve; auto.
Qed.

Lemma preserves_exportLayers ref tempDir l acc :
  (∀ c e, layer_call c = true → oke (c, e)) →
  preserves I (exportLayers E ref tempDir l acc).
Proof using I_fs I_log I_defer.
  intros Hc. revert acc. induction l as [|d l IH]; intros acc; simpl.
  - apply preserves_ret.
  - apply preserves_bind; [by apply preserves_exportLayer|done].
Qed.

Lemma preserves_writeArchive tempDir em conf :
  (∀ c e, archive_call c = true → oke (c, e)) →
  preserves I (writeArchive E tempDir em conf).
Proof using I_fs I_out I_log I_defer.
  intros Hc. unfold writeArchive, WriteFile, Chtimes, Tar. preserve; auto.
Qed.

End Preserves.

(** ** The deferred calls and the work directory *)

Section Deferred.
Variable E : Env.

Lemma run_deferred_app a b s :
  run_deferred (a ++ b) s = run_deferred b (run_deferred a s).
Proof. revert s. induction a as [|d a IH]; intros s; simpl; [done|]. apply IH. Qed.

Lemma run_closes ds s :
  Forall (λ d, d = DClose) ds →
  fs (run_deferred ds s) = fs s ∧ out (run_deferred ds s) = out s ∧
  stderr (run_deferred ds s) = stderr s ∧
  trace (run_deferred ds s) = trace s ++ replicate (length ds) (CCloseReader, None).
Proof.
  intros H. revert s. induction H as [|d ds -> _ IH]; intros s; simpl.
  - by rewrite app_nil_r.
  - destruct (IH (log CCloseReader None s)) as (-> & -> & -> & ->).
    simpl. by rewrite <- app_assoc.
Qed.

Lemma fs_mkdir_path dir name root p root' :
  fs_mkdir dir name root = (Ok p, root') → p = dir ++ [name].
Proof.
  unfold fs_mkdir. destruct (get dir root) as [[|es]|]; try done.
  destruct (es !! name); [done|]. destruct (put _ _ _); [|done]. by intros [= <- _].
Qed.

(** How a run of [ImageExport] starts. *)
Lemma ImageExport_start ref root :
  ImageExport E ref (init root) =
  if decide (CommonName E ref = "") then (Raise ErrNotFound, init root)
  else
    match fault E 0 with
    | Some e =>
        (Raise e, mkState root [] [] [(CManifestGet ref, Some e)] [])
    | None =>
        match fault E 1 with
        | Some e =>
            (Raise e,
             mkState root [] []
               [(CManifestGet ref, None); (CTempDir [] "regcli-export-", Some e)] [])
        | None =>
            match fs_mkdir [] (temp_name "regcli-export-" (rand E 1)) root with
            | (Ok _, root1) =>
                match exportBody E ref (manifests E ref) (workdir E) (tagged E ref)
                        (started E ref root1) with
                | (o, s1) => (o, set_defers [] (run_deferred (defers s1) s1))
                end
            | (Err e, root1) =>
                (Raise e,
                 mkState root1 [] []
                   [(CManifestGet ref, None); (CTempDir [] "regcli-export-", Some e)] [])
            end
        end
    end.
Proof.
  unfold ImageExport, go_func. destruct (decide _); [reflexivity|].
  unfold ManifestGet, TempDir. rewrite bind_call. cbn [trace init set_defers length].
  destruct (fault E 0); [reflexivity|].
  rewrite bind_call. cbn [trace init set_defers set_fs log length app fs].
  destruct (fault E 1); [reflexivity|].
  destruct (fs_mkdir _ _ _) as [[p|e] root1] eqn:Hmk; [|reflexivity].
  apply fs_mkdir_path in Hmk as ->. rewrite bind_defer. reflexivity.
Qed.

Lemma closes_only_frame d0 :
  (∀ r s, closes_only d0 s → closes_only d0 (set_fs r s)) ∧
  (∀ d s, closes_only d0 s → closes_only d0 (add_out d s)) ∧
  (∀ l s, closes_only d0 s → closes_only d0 (add_stderr l s)) ∧
  (∀ c e s, True → closes_only d0 s → closes_only d0 (log c e s)) ∧
  (∀ s, closes_only d0 s → closes_only d0 (set_defers (DClose :: defers s) s)).
Proof.
  split_and!; try done.
  intros s (ds & Hd & Hc). exists (DClose :: ds). simpl. rewrite Hd.
  split; [done|]. by constructor.
Qed.

Lemma exportBody_closes_only d0 ref m tempDir em :
  preserves (closes_only d0) (exportBody E ref m tempDir em).
Proof.
  destruct (closes_only_frame d0) as (H1 & H2 & H3 & H4 & H5).
  unfold exportBody.
  apply preserves_bind; [by eapply (preserves_getConfig E _ (λ _, True))|intros conf].
  apply preserves_bind; [apply preserves_try; apply preserves_ret|intros l].
  apply preserves_bind;
    [by eapply (preserves_exportLayers E _ (λ _, True))|intros [em' conf']].
  by eapply (preserves_writeArchive E _ (λ _, True)).
Qed.

(** C7.  In every run of [ImageExport] that created its work directory,
    however the run ends (normal return, error or panic), the last call is
    the removal of that directory and the directory does not exist
    afterwards. *)
Theorem ImageExport_removes_workdir ref root o s' :
  ImageExport E ref (init root) = (o, s') →
  (CTempDir [] "regcli-export-", None) ∈ trace s' →
  get (workdir E) (fs s') = None ∧
  last (trace s') = Some (CRemoveAll (workdir E), None).
Proof.
  rewrite ImageExport_start. destruct (decide _) as [|Hn].
  { intros [= <- <-] Hin. inversion Hin. }
  destruct (fault E 0).
  { intros [= <- <-] [[=]|Hin]%elem_of_cons. inversion Hin. }
  destruct (fault E 1).
  { intros [= <- <-] [[=]|[[=]|Hin]%elem_of_cons]%elem_of_cons. inversion Hin. }
  destruct (fs_mkdir _ _ _) as [[p|e] root1].
  2:{ intros [= <- <-] [[=]|[[=]|Hin]%elem_of_cons]%elem_of_cons. inversion Hin. }
  destruct (exportBody _ _ _ _ _ _) as [o1 s1] eqn:Hb. intros [= <- <-] _.
  apply (exportBody_closes_only [DRemoveAll (workdir E)]) in Hb.
  destruct Hb as (ds & Hd & Hc); [exists (@nil deferred); split; [reflexivity|constructor]|].
  rewrite Hd, run_deferred_app.
  destruct (run_closes ds s1 Hc) as (Hfs & _ & _ & Htr).
  cbn [run_deferred exec_deferred set_defers fs trace log set_fs].
  split; [by apply get_remove|]. by rewrite last_snoc.
Qed.

End Deferred.

(** ** The blocks of [ImageExport], one by one *)

(** Closing the layer file: whatever it returns, the run goes on. *)
Ltac close_file :=
  rewrite bind_CloseFile;
  match goal with
  | |- context [log (CCloseFile _) (fault ?E ?n) _] =>
      let ec := fresh "ec" in generalize (fault E n); intros ec
  end.

(** An event of some kind is not in a trace that grew by events of other
    kinds. *)
Ltac not_logged Hs :=
  intros ? ?; cbn [trace log set_fs set_defers add_out add_stderr];
  rewrite ?elem_of_app, ?list_elem_of_singleton;
  let Hin := fresh in
  intros Hin; decompose [or] Hin; try discriminate; by eapply Hs.

Section Blocks.
Variable E : Env.

Lemma norename_log c e s :
  (∀ old new, (c, e) ≠ (CRename old new, None)) → norename s → norename (log c e s).
Proof.
  intros Hc Hs old new. cbn. rewrite elem_of_app, list_elem_of_singleton.
  intros [H|H]; [by eapply Hs|by eapply Hc].
Qed.

Lemma norename_frame :
  (∀ r s, norename s → norename (set_fs r s)) ∧
  (∀ d s, norename s → norename (add_out d s)) ∧
  (∀ l s, norename s → norename (add_stderr l s)) ∧
  (∀ c e s, (∀ old new, (c, e) ≠ (CRename old new, None)) →
            norename s → norename (log c e s)) ∧
  (∀ s, norename s → norename (set_defers (DClose :: defers s) s)).
Proof. split_and!; try done. apply norename_log. Qed.

Lemma norename_run_deferred ds s : norename s → norename (run_deferred ds s).
Proof.
  revert s. induction ds as [|d ds IH]; intros s Hs; [done|].
  simpl. apply IH. destruct d; simpl; by apply norename_log.
Qed.

Lemma written_files_app a b : written_files (a ++ b) = written_files a ++ written_files b.
Proof. apply omap_app. Qed.

Lemma written_run_deferred ds s :
  written_files (trace (run_deferred ds s)) = written_files (trace s).
Proof.
  revert s. induction ds as [|d ds IH]; intros s; [done|].
  simpl. rewrite IH. destruct d; cbn; by rewrite written_files_app, app_nil_r.
Qed.

(** Lines 166-209 in one equation. *)
Lemma getConfig_eq ref m s :
  getConfig E ref m s =
  match GetConfigDigest m with
  | Err e => (Raise e, s)
  | Ok cd =>
      let c := CBlobGet ref cd [MediaTypeDocker2ImageConfig; MediaTypeImageConfig] in
      match fault E (length (trace s)) with
      | Some e => (Raise e, log c (Some e) s)
      | None =>
          match serr (blobs E ref cd) with
          | Some e => (Raise e, log c None s)
          | None =>
              let confstr := sdata (blobs E ref cd) in
              let s2 :=
                if decide (cd ≠ FromBytes E confstr)
                then add_stderr (mismatch_warning cd (FromBytes E confstr)) (log c None s)
                else log c None s in
              match Unmarshal E confstr with
              | Ok conf => (Done (set_DiffIDs [] conf), s2)
              | Err e => (Raise e, s2)
              end
          end
      end
  end.
Proof.
  unfold getConfig. rewrite bind_try_ret.
  destruct (GetConfigDigest m) as [cd|e]; [|reflexivity].
  rewrite bind_BlobGet. cbv zeta. destruct (fault E _); [reflexivity|].
  rewrite bind_check. unfold ReadAll. rewrite bind_try_ret.
  destruct (serr _); [reflexivity|].
  destruct (decide _); [rewrite bind_Fprintf|rewrite bind_ret];
    rewrite bind_try_ret; destruct (Unmarshal E _); reflexivity.
Qed.

Lemma Forall_closes_cons ds : Forall (λ d, d = DClose) ds → Forall (λ d, d = DClose) (DClose :: ds).
Proof. by constructor. Qed.

(** One iteration of the loop: what a normal return, a panic and an error
    each tell. *)
Lemma exportLayer_cases ref T d em conf s o s' :
  exportLayer E ref T d (em, conf) s = (o, s') →
  match o with
  | Done (em', conf') =>
      ∃ plain created,
        layer_plain E ref d = Some plain ∧
        Created conf = Some created ∧
        hexsum E plain ≠ "" ∧
        em' = set_Layers (Layers em ++ [hexsum E plain +:+ "/layer.tar"]) em ∧
        conf' = set_DiffIDs (RootFS_DiffIDs conf ++ [FromBytes E plain]) conf ∧
        written_files (trace s') = written_files (trace s)
  | Panic => Created conf = None
  | Raise e => Created conf = None → norename s → norename s'
  end.
Proof.
  unfold exportLayer, TempDir, OpenFile, Rename, Chtimes.
  rewrite bind_call. destruct (fault E _).
  { intros [= <- <-] _ Hs. not_logged Hs. }
  destruct (fs_mkdir _ _ _) as [[layerDir|e] root1] eqn:Hmk.
  2:{ intros [= <- <-] _ Hs. not_logged Hs. }
  apply fs_mkdir_path in Hmk as ->.
  rewrite bind_BlobGet. destruct (fault E _).
  { rewrite bind_check. intros [= <- <-] _ Hs. not_logged Hs. }
  rewrite bind_check, bind_deref, bind_defer, bind_try_ret.
  destruct (DecompressStream E _) as [st|e] eqn:Hst.
  2:{ intros [= <- <-] _ Hs. not_logged Hs. }
  rewrite bind_call. destruct (fault E _).
  { intros [= <- <-] _ Hs. not_logged Hs. }
  destruct (fs_open_trunc _ _ _) as [[lf|e] root2].
  2:{ intros [= <- <-] _ Hs. not_logged Hs. }
  rewrite bind_CopyToFile. cbv zeta.
  destruct (fs_append _ _ _ _) as [[[]|e] root3].
  2:{ rewrite bind_check. intros [= <- <-] _ Hs. not_logged Hs. }
  destruct (copied E _ st) as [hashed [e|]] eqn:Hcp; cbn [fst snd].
  { rewrite bind_check. intros [= <- <-] _ Hs. not_logged Hs. }
  apply copied_ok_inv in Hcp as [-> Herr].
  rewrite bind_check. close_file. rewrite Encoded_FromBytes, bind_call.
  destruct (fault E _).
  { intros [= <- <-] _ Hs. not_logged Hs. }
  destruct (fs_rename _ _ _) as [[[]|e] root4] eqn:Hrn.
  2:{ intros [= <- <-] _ Hs. not_logged Hs. }
  assert (hexsum E (sdata st) ≠ "") as Hne.
  { intros Heq. rewrite Heq in Hrn. by apply fs_rename_to_parent in Hrn. }
  rewrite bind_deref. destruct (Created conf) as [created|] eqn:Hc.
  2:{ by intros [= <- <-]. }
  rewrite bind_call. destruct (fault E _); [by intros [= <- <-]|].
  destruct (fs_chtimes _ _ _) as [[[]|e] root5]; [|by intros [= <- <-]].
  intros [= <- <-]. exists (sdata st), created.
  unfold layer_plain, read_all. rewrite Hst, Herr, !Join_ne by done.
  split_and!; try done. cbn. by rewrite !written_files_app, !app_nil_r.
Qed.

Lemma exportLayers_cases ref T l em conf s o s' :
  exportLayers E ref T l (em, conf) s = (o, s') →
  match o with
  | Done (em', conf') =>
      ∃ plains,
        Forall2 (λ d b, layer_plain E ref d = Some b) l plains ∧
        (l ≠ [] → is_Some (Created conf)) ∧
        Forall (λ b, hexsum E b ≠ "") plains ∧
        em' = set_Layers
                (Layers em ++ ((λ b, hexsum E b +:+ "/layer.tar") <$> plains)) em ∧
        conf' = set_DiffIDs (RootFS_DiffIDs conf ++ (FromBytes E <$> plains)) conf ∧
        written_files (trace s') = written_files (trace s)
  | Panic => Created conf = None
  | Raise e => Created conf = None → norename s → norename s'
  end.
Proof.
  revert em conf s. induction l as [|d l IH]; intros em conf s; simpl.
  - intros [= <- <-]. exists []. split_and!; try done.
    + by destruct em; rewrite app_nil_r.
    + by destruct conf; rewrite app_nil_r.
  - intros H. apply bind_inv in H as [([em1 conf1] & s1 & H1 & H) | [(e & H1 & ->) | (H1 & ->)]];
      apply exportLayer_cases in H1; try done.
    destruct H1 as (plain & created & Hp & Hc & Hne & -> & -> & Hw).
    apply IH in H. destruct o as [[em' conf']|e|]; cbn in H.
    + destruct H as (plains & HF & _ & Hnes & -> & -> & Hw').
      exists (plain :: plains). cbn. rewrite <- !app_assoc.
      split_and!; try done; try (by constructor); try congruence.
    + intros Hn. by rewrite Hn in Hc.
    + by rewrite Hc in H.
Qed.

(** Lines 273-312. *)
Lemma writeArchive_cases T em conf s o s' :
  writeArchive E T em conf s = (o, s') →
  match o with
  | Done _ =>
      ∃ confstr mlj created,
        MarshalImage E conf = Ok confstr ∧
        Created conf = Some created ∧
        MarshalManifests E [set_Config (hexsum E confstr +:+ ".json") em] = Ok mlj ∧
        written_files (trace s') =
          written_files (trace s)
          ++ [(drop 1 (T ++ [hexsum E confstr +:+ ".json"]), confstr);
              (drop 1 (T ++ ["manifest.json"]), mlj)]
  | Panic => Created conf = None
  | Raise e => norename s → norename s'
  end.
Proof.
  unfold writeArchive, WriteFile, Chtimes, Tar.
  rewrite bind_try_ret. destruct (MarshalImage E conf) as [confstr|e] eqn:Hm.
  2:{ by intros [= <- <-]. }
  rewrite Encoded_FromBytes, (Join_ne _ (_ +:+ ".json")) by apply json_nonempty.
  rewrite (Join_ne _ "manifest.json") by done.
  rewrite bind_call. destruct (fault E _).
  { intros [= <- <-] Hs. not_logged Hs. }
  destruct (fs_write_file _ _ _ _) as [[[]|e] root1].
  2:{ intros [= <- <-] Hs. not_logged Hs. }
  rewrite bind_deref. destruct (Created conf) as [created|] eqn:Hc.
  2:{ by intros [= <- <-]. }
  rewrite bind_call. destruct (fault E _).
  { intros [= <- <-] Hs. not_logged Hs. }
  destruct (fs_chtimes _ _ _) as [[[]|e] root2].
  2:{ intros [= <- <-] Hs. not_logged Hs. }
  rewrite bind_try_ret. destruct (MarshalManifests E _) as [mlj|e] eqn:Hml.
  2:{ intros [= <- <-] Hs. not_logged Hs. }
  rewrite bind_call. destruct (fault E _).
  { intros [= <- <-] Hs. not_logged Hs. }
  destruct (fs_write_file _ _ _ _) as [[[]|e] root3].
  2:{ intros [= <- <-] Hs. not_logged Hs. }
  rewrite bind_call. destruct (fault E _).
  { intros [= <- <-] Hs. not_logged Hs. }
  destruct (fs_chtimes _ _ _) as [[[]|e] root4].
  2:{ intros [= <- <-] Hs. not_logged Hs. }
  rewrite bind_call. destruct (fault E _).
  { intros [= <- <-] Hs. not_logged Hs. }
  destruct (match get T _ with Some _ => _ | None => _ end) as [[tar|e] root5].
  2:{ intros [= <- <-] Hs. not_logged Hs. }
  rewrite bind_defer, bind_CopyOut. cbv zeta. unfold ret.
  intros [= <- <-]. exists confstr, mlj, created. split_and!; try done.
  cbn [trace log set_fs set_defers add_out].
  rewrite !written_files_app. cbn. by rewrite !app_nil_r, <- app_assoc.
Qed.

(** Lines 162-312. *)
Lemma exportBody_cases ref m T em s o s' :
  exportBody E ref m T em s = (o, s') →
  match o with
  | Done _ =>
      ∃ cd conf0 created l plains confstr mlj,
        GetConfigDigest m = Ok cd ∧
        serr (blobs E ref cd) = None ∧
        Unmarshal E (sdata (blobs E ref cd)) = Ok conf0 ∧
        Created conf0 = Some created ∧
        GetLayers m = Ok l ∧
        Forall2 (λ d b, layer_plain E ref d = Some b) l plains ∧
        Forall (λ b, hexsum E b ≠ "") plains ∧
        MarshalImage E (set_DiffIDs (FromBytes E <$> plains) conf0) = Ok confstr ∧
        MarshalManifests E
          [mkTarManifest (hexsum E confstr +:+ ".json") (RepoTags em)
             (Layers em ++ ((λ b, hexsum E b +:+ "/layer.tar") <$> plains))] = Ok mlj ∧
        written_files (trace s') =
          written_files (trace s)
          ++ [(drop 1 (T ++ [hexsum E confstr +:+ ".json"]), confstr);
              (drop 1 (T ++ ["manifest.json"]), mlj)]
  | Panic =>
      ∃ cd conf0,
        GetConfigDigest m = Ok cd ∧
        Unmarshal E (sdata (blobs E ref cd)) = Ok conf0 ∧
        Created conf0 = None
  | Raise e =>
      ∀ cd conf0 d l,
        GetConfigDigest m = Ok cd →
        Unmarshal E (sdata (blobs E ref cd)) = Ok conf0 →
        Created conf0 = None →
        GetLayers m = Ok (d :: l) →
        norename s → norename s'
  end.
Proof.
  unfold exportBody. intros H.
  apply bind_inv in H as [(conf & s1 & H1 & H) | [(e & H1 & ->) | (H1 & ->)]];
    rewrite getConfig_eq in H1; cbv zeta in H1;
    destruct (GetConfigDigest m) as [cd|e0] eqn:Hcd; try discriminate H1;
    try (injection H1 as <- <-; by intros);
    (destruct (fault E _); [try discriminate H1; injection H1 as <- <-;
                               intros ???? _ _ _ _ Hs; not_logged Hs|]);
    (destruct (serr _) eqn:Hserr; [try discriminate H1; injection H1 as <- <-;
                                     intros ???? _ _ _ _ Hs; not_logged Hs|]);
    destruct (Unmarshal E _) as [conf0|e0] eqn:Hconf; try discriminate H1.
  2:{ injection H1 as <- <-. intros ???? _ _ _ _ Hs.
      destruct (decide _); not_logged Hs. }
  injection H1 as <- <-.
  set (s1 := if decide _ then _ else _) in H.
  assert (Hs1 : norename s → norename s1).
  { intros Hs. subst s1. destruct (decide _); not_logged Hs. }
  assert (Hw1 : written_files (trace s1) = written_files (trace s)).
  { subst s1. destruct (decide _); cbn; by rewrite written_files_app, app_nil_r. }
  clearbody s1.
  rewrite bind_try_ret in H. destruct (GetLayers m) as [l|e0] eqn:Hl.
  2:{ injection H as <- <-. intros. auto. }
  apply bind_inv in H as [([em' conf'] & s2 & H2 & H) | [(e & H2 & ->) | (H2 & ->)]];
    apply exportLayers_cases in H2.
  - destruct H2 as (plains & HF & Hcr & Hne & -> & -> & Hw2).
    apply writeArchive_cases in H. destruct o as [[]|e|].
    + destruct H as (confstr & mlj & created & Hm & Hc & Hml & Hw).
      exists cd, conf0, created, l, plains, confstr, mlj.
      rewrite Hw, Hw2, Hw1. split_and!; done.
    + intros cd' conf0' d l' [= <-] Hconf' Hc' [= ->] Hs.
      rewrite Hconf in Hconf'. injection Hconf' as <-.
      destruct Hcr as [? Hcr]; [done|]. cbn in Hcr. congruence.
    + exists cd, conf0. done.
  - intros cd' conf0' d l' [= <-] Hconf' Hc' _ Hs.
    rewrite Hconf in Hconf'. injection Hconf' as <-. auto.
  - exists cd, conf0. done.
Qed.

End Blocks.

(** ** Runs of [ImageExport] that return normally *)

Section Exported.
Variable E : Env.

(** What a normal return of [ImageExport] tells about the run. *)
Lemma ImageExport_done ref root s' :
  ImageExport E ref (init root) = (Done tt, s') →
  ∃ cd conf0 created l plains confstr mlj,
    GetConfigDigest (manifests E ref) = Ok cd ∧
    serr (blobs E ref cd) = None ∧
    Unmarshal E (sdata (blobs E ref cd)) = Ok conf0 ∧
    Created conf0 = Some created ∧
    GetLayers (manifests E ref) = Ok l ∧
    Forall2 (λ d b, layer_plain E ref d = Some b) l plains ∧
    MarshalImage E (set_DiffIDs (FromBytes E <$> plains) conf0) = Ok confstr ∧
    MarshalManifests E
      [mkTarManifest (hexsum E confstr +:+ ".json") [CommonName E ref]
         ((λ b, hexsum E b +:+ "/layer.tar") <$> plains)] = Ok mlj ∧
    written_files (trace s') =
      [([hexsum E confstr +:+ ".json"], confstr); (["manifest.json"], mlj)].
Proof.
  rewrite ImageExport_start. destruct (decide _); [done|].
  destruct (fault E 0); [done|]. destruct (fault E 1); [done|].
  destruct (fs_mkdir _ _ _) as [[p|e] root1]; [|done].
  destruct (exportBody _ _ _ _ _ _) as [o1 s1] eqn:Hb. intros [= -> <-].
  apply exportBody_cases in Hb
    as (cd & conf0 & created & l & plains & confstr & mlj
        & Hcd & Hr & Hconf & Hc & Hl & HF & _ & Hm & Hml & Hw).
  exists cd, conf0, created, l, plains, confstr, mlj. split_and!; try done.
  cbn [trace set_defers]. by rewrite written_run_deferred, Hw.
Qed.

(** C2.  After a normal return of [ImageExport] on a manifest with the
    layers [l], the config that was marshalled and written has one diff ID
    per layer, each the canonical digest of the decompressed bytes of the
    corresponding layer (not the digest in the layer's descriptor), and the
    manifest entry that was marshalled and written lists one path
    [<hex of the diff ID>/layer.tar] per layer, both in the order of [l]. *)
Theorem ImageExport_diff_ids ref root s' :
  ImageExport E ref (init root) = (Done tt, s') →
  ∃ l plains conf confstr em mlj,
    GetLayers (manifests E ref) = Ok l ∧
    Forall2 (λ d b, layer_plain E ref d = Some b) l plains ∧
    RootFS_DiffIDs conf = FromBytes E <$> plains ∧
    Layers em = (λ b, Encoded (FromBytes E b) +:+ "/layer.tar") <$> plains ∧
    Config em = Encoded (FromBytes E confstr) +:+ ".json" ∧
    RepoTags em = [CommonName E ref] ∧
    length (RootFS_DiffIDs conf) = length l ∧
    length (Layers em) = length l ∧
    MarshalImage E conf = Ok confstr ∧
    MarshalManifests E [em] = Ok mlj ∧
    written_files (trace s') =
      [([Encoded (FromBytes E confstr) +:+ ".json"], confstr);
       (["manifest.json"], mlj)].
Proof.
  intros (cd & conf0 & created & l & plains & confstr & mlj
          & Hcd & Hr & Hconf & Hc & Hl & HF & Hm & Hml & Hw)%ImageExport_done.
  eexists l, plains, _, confstr, _, mlj.
  split_and!; [done|done| | | | | | |exact Hm|exact Hml|exact Hw]; cbn.
  - reflexivity.
  - reflexivity.
  - reflexivity.
  - reflexivity.
  - rewrite length_fmap. symmetry. by eapply Forall2_length.
  - rewrite length_fmap. symmetry. by eapply Forall2_length.
Qed.

End Exported.

(** X14.  Two runs of [ImageExport] on the same reference that both return
    normally, against registries that serve the same manifest and blobs
    (whatever the temporary names, the clock, the initial file systems and
    the faults of the two runs), rebuild the same config with the same diff
    IDs, marshal it to the same bytes with the same digest, write it under
    the same digest-derived name and write the same [manifest.json]. *)
Theorem ImageExport_deterministic E1 E2 ref root1 root2 s1 s2 :
  same_registry E1 E2 →
  ImageExport E1 ref (init root1) = (Done tt, s1) →
  ImageExport E2 ref (init root2) = (Done tt, s2) →
  ∃ l plains conf confstr mlj,
    GetLayers (manifests E1 ref) = Ok l ∧
    Forall2 (λ d b, layer_plain E1 ref d = Some b) l plains ∧
    Forall2 (λ d b, layer_plain E2 ref d = Some b) l plains ∧
    RootFS_DiffIDs conf = FromBytes E1 <$> plains ∧
    RootFS_DiffIDs conf = FromBytes E2 <$> plains ∧
    MarshalImage E1 conf = Ok confstr ∧
    MarshalImage E2 conf = Ok confstr ∧
    FromBytes E1 confstr = FromBytes E2 confstr ∧
    written_files (trace s1) =
      [([Encoded (FromBytes E1 confstr) +:+ ".json"], confstr);
       (["manifest.json"], mlj)] ∧
    written_files (trace s2) = written_files (trace s1).
Proof.
  intros HR
    (cd & conf0 & created & l & plains & confstr & mlj
     & Hcd & Hr & Hconf & Hc & Hl & HF & Hm & Hml & Hw)%ImageExport_done
    (cd' & conf0' & created' & l' & plains' & confstr' & mlj'
     & Hcd' & Hr' & Hconf' & Hc' & Hl' & HF' & Hm' & Hml' & Hw')%ImageExport_done.
  destruct HR as [Hname Hman Hblob Hhex Hun Hmi Hmm Hde].
  rewrite <- Hman in Hcd', Hl'. rewrite Hcd in Hcd'. injection Hcd' as <-.
  rewrite Hl in Hl'. injection Hl' as <-.
  rewrite <- Hblob, <- Hun, Hconf in Hconf'. injection Hconf' as <-.
  assert (plains' = plains) as ->.
  { clear -HF HF' Hblob Hde. revert plains' HF'.
    induction HF as [|d b l plains Hb _ IH]; intros plains' HF'.
    - by inversion HF'.
    - inversion HF' as [|d' b' l' plains0 Hb' HF0]; subst.
      f_equal; [|by apply IH].
      unfold layer_plain in Hb, Hb'. rewrite <- Hblob, <- Hde in Hb'. congruence. }
  assert ((FromBytes E2 <$> plains) = (FromBytes E1 <$> plains)) as HFB.
  { apply list_fmap_ext. intros _ b _. unfold FromBytes. by rewrite Hhex. }
  rewrite HFB, <- Hmi, Hm in Hm'. injection Hm' as <-.
  assert (((λ b, hexsum E2 b +:+ "/layer.tar") <$> plains)
          = ((λ b, hexsum E1 b +:+ "/layer.tar") <$> plains)) as HL.
  { apply list_fmap_ext. intros _ b _. by rewrite Hhex. }
  rewrite HL, <- Hmm, <- Hname, <- Hhex, Hml in Hml'. injection Hml' as <-.
  exists l, plains, (set_DiffIDs (FromBytes E1 <$> plains) conf0), confstr, mlj.
  split_and!; try done.
  - by rewrite <- Hmi.
  - unfold FromBytes. by rewrite Hhex.
  - by rewrite Hw', Hw, Hhex.
Qed.

(** C9.  For a config that decodes without creation time: the export never
    returns normally, and a run that got as far as renaming a layer
    directory (so a run on a manifest with a layer, at the point where the
    file times are set) ends in the nil dereference, not in an error.  For
    a config that decodes with a creation time the export never panics. *)
Theorem ImageExport_nil_created E ref root o s' cd conf0 :
  ImageExport E ref (init root) = (o, s') →
  GetConfigDigest (manifests E ref) = Ok cd →
  Unmarshal E (sdata (blobs E ref cd)) = Ok conf0 →
  (Created conf0 = None →
     o ≠ Done tt ∧
     ((∃ d l, GetLayers (manifests E ref) = Ok (d :: l)) →
      (∃ old new, (CRename old new, None) ∈ trace s') → o = Panic)) ∧
  (is_Some (Created conf0) → o ≠ Panic).
Proof.
  intros H Hcd Hconf. split.
  - intros Hc. split.
    { intros ->. apply ImageExport_done in H
        as (cd' & conf0' & created & _ & _ & _ & _ & Hcd' & _ & Hconf' & Hc' & _).
      congruence. }
    intros (d & l & Hl) (old & new & Hin).
    rewrite ImageExport_start in H. destruct (decide _).
    { injection H as <- <-. inversion Hin. }
    destruct (fault E 0).
    { injection H as <- <-. apply list_elem_of_singleton in Hin. discriminate. }
    assert (∀ e root1,
      (CRename old new, None) ∉
      trace (mkState root1 [] []
        [(CManifestGet ref, None); (CTempDir [] "regcli-export-", Some e)] [])) as Hno.
    { intros e root1 [[=]|[[=]|[]%elem_of_nil]%elem_of_cons]%elem_of_cons. }
    destruct (fault E 1).
    { injection H as <- <-. by apply Hno in Hin. }
    destruct (fs_mkdir _ _ _) as [[p|e] root1].
    2:{ injection H as <- <-. by apply Hno in Hin. }
    destruct (exportBody _ _ _ _ _ _) as [o1 s1] eqn:Hb. injection H as <- <-.
    apply exportBody_cases in Hb. destruct o1 as [[]|e|]; [| |done].
    + destruct Hb as (cd' & conf0' & created & _ & _ & _ & _ & Hcd' & _ & Hconf' & Hc' & _).
      congruence.
    + exfalso. eapply (norename_run_deferred (defers s1) s1); [|exact Hin].
      eapply Hb; eauto.
      intros ? ? [[=]|[[=]|[]%elem_of_nil]%elem_of_cons]%elem_of_cons.
  - intros [created Hc] ->.
    rewrite ImageExport_start in H. destruct (decide _); [done|].
    destruct (fault E 0); [done|]. destruct (fault E 1); [done|].
    destruct (fs_mkdir _ _ _) as [[p|e] root1]; [|done].
    destruct (exportBody _ _ _ _ _ _) as [o1 s1] eqn:Hb. injection H as -> <-.
    apply exportBody_cases in Hb as (cd' & conf0' & Hcd' & Hconf' & Hc').
    congruence.
Qed.

(** ** Runs in which nothing fails *)

Section Healthy.
Variable E : Env.
Hypothesis no_fault : ∀ n, fault E n = None.
Hypothesis hex_sums : ∀ b, is_hex (hexsum E b) = true.

Lemma layer_plain_inv ref d b :
  layer_plain E ref d = Some b →
  ∃ st, DecompressStream E (blobs E ref (DescDigest d)) = Ok st ∧
        serr st = None ∧ b = sdata st.
Proof.
  unfold layer_plain, read_all. destruct (DecompressStream E _) as [st|]; [|done].
  destruct (serr st) eqn:Hs; [done|]. intros [= <-]. eauto.
Qed.

(** One iteration, for a layer whose directory name is free. *)
Lemma exportLayer_run ref T base ents d em conf plain created s :
  is_dir base = true →
  fs s = graft T (Dir ents) base →
  (∀ k, is_Some (ents !! k) → is_hex k = true) →
  layer_plain E ref d = Some plain →
  ents !! hexsum E plain = None →
  Created conf = Some created →
  ∃ s', exportLayer E ref [T] d (em, conf) s =
        (Done (set_Layers (Layers em ++ [hexsum E plain +:+ "/layer.tar"]) em,
               set_DiffIDs (RootFS_DiffIDs conf ++ [FromBytes E plain]) conf), s') ∧
    fs s' = graft T (Dir (<[hexsum E plain := layer_dir plain created]> ents)) base ∧
    out s' = out s ∧ stderr s' = stderr s.
Proof using no_fault hex_sums.
  intros Hbase Hfs Hkeys (st & Hst & Herr & ->)%layer_plain_inv Hhex Hc.
  set (L := temp_name "layer-*" (rand E (length (trace s)))).
  set (hex := hexsum E (sdata st)) in *.
  assert (HL : ents !! L = None).
  { destruct (ents !! L) eqn:HL; [|done].
    assert (is_hex L = true) by (apply Hkeys; by rewrite HL). done. }
  assert (Hne : hex ≠ "") by apply is_hex_nonempty, hex_sums.
  assert (HhL : hex ≠ L).
  { intros Heq. pose proof (hex_sums (sdata st)) as Hh. fold hex in Hh.
    rewrite Heq in Hh. done. }
  assert (Hw : ∀ w, get [T] (graft T w base) = Some w)
    by (intros; by apply get_graft_dir).
  unfold exportLayer, TempDir, OpenFile, Rename, Chtimes.
  rewrite bind_call, no_fault, Hfs, (fs_mkdir_under (Hw _)). fold L.
  rewrite mkdir_local by done.
  cbn [at_path]. rewrite graft_graft.
  rewrite bind_BlobGet, no_fault, bind_check, bind_deref, bind_defer, Hst, bind_try_ret.
  rewrite (Join_ne _ "layer.tar") by done. cbn [app].
  rewrite bind_call, no_fault. cbn [fs set_fs set_defers log].
  rewrite (fs_open_trunc_under (Hw _)) by done.
  erewrite open_local; [|apply lookup_insert_eq|apply lookup_empty].
  cbn [at_path]. rewrite graft_graft, insert_insert_eq.
  rewrite bind_CopyToFile. cbv zeta. unfold copied. rewrite no_fault, Herr.
  cbn [fst snd fs set_fs set_defers log].
  rewrite (fs_append_under (Hw _)) by done.
  erewrite append_local; [|apply lookup_insert_eq|apply lookup_insert_eq].
  rewrite graft_graft, !insert_insert_eq. cbn [app].
  rewrite bind_check, bind_CloseFile, no_fault, Encoded_FromBytes. fold hex.
  rewrite !Join_ne by done. cbn [app].
  rewrite bind_call, no_fault. cbn [fs set_fs set_defers log].
  rewrite (fs_rename_under (Hw _)) by done.
  erewrite rename_local; [|apply lookup_insert_eq|by rewrite lookup_insert_ne|done].
  rewrite graft_graft, delete_insert_eq, delete_id by done.
  rewrite Hc, bind_deref, bind_call, no_fault. cbn [fs set_fs set_defers log].
  rewrite (fs_chtimes_under (Hw _)) by done.
  erewrite chtimes_local; [|apply lookup_insert_eq|apply lookup_insert_eq].
  rewrite graft_graft, !insert_insert_eq.
  eexists. split; [reflexivity|]. cbn. done.
Qed.

Lemma exportLayers_run ref T base l plains ents em conf created s :
  is_dir base = true →
  fs s = graft T (Dir ents) base →
  (∀ k, is_Some (ents !! k) → is_hex k = true) →
  Forall2 (λ d b, layer_plain E ref d = Some b) l plains →
  NoDup (hexsum E <$> plains) →
  (∀ b, b ∈ plains → ents !! hexsum E b = None) →
  Created conf = Some created →
  ∃ s', exportLayers E ref [T] l (em, conf) s =
        (Done (set_Layers
                 (Layers em ++ ((λ b, hexsum E b +:+ "/layer.tar") <$> plains)) em,
               set_DiffIDs (RootFS_DiffIDs conf ++ (FromBytes E <$> plains)) conf), s') ∧
    fs s' = graft T (Dir (layers_tree E created plains ents)) base ∧
    out s' = out s ∧ stderr s' = stderr s.
Proof using no_fault hex_sums.
  intros Hbase Hfs Hkeys HF. revert ents em conf s Hfs Hkeys.
  induction HF as [|d b l plains Hb _ IH]; intros ents em conf s Hfs Hkeys Hnd Hfree Hc.
  - exists s. simpl. split_and!; try done.
    destruct em, conf; cbn; by rewrite !app_nil_r.
  - apply NoDup_cons in Hnd as [Hnotin Hnd].
    destruct (exportLayer_run ref T base ents d em conf b created s)
      as (s1 & Hrun & Hfs1 & Hout1 & Herr1); try done.
    { apply Hfree. by left. }
    destruct (IH (<[hexsum E b := layer_dir b created]> ents)
                 (set_Layers (Layers em ++ [hexsum E b +:+ "/layer.tar"]) em)
                 (set_DiffIDs (RootFS_DiffIDs conf ++ [FromBytes E b]) conf) s1)
      as (s2 & Hrun2 & Hfs2 & Hout2 & Herr2); try done.
    { intros k. rewrite lookup_insert. case_decide; [by subst|by apply Hkeys]. }
    { intros b' Hb'. rewrite lookup_insert_ne; [apply Hfree; by right|].
      intros Heq. apply Hnotin. rewrite Heq. by apply list_elem_of_fmap_2. }
    exists s2. cbn [exportLayers]. unfold bind at 1. rewrite Hrun, Hrun2.
    cbn. rewrite <- !app_assoc. split_and!; try done; congruence.
Qed.

Lemma layers_tree_keys created plains ents :
  (∀ k, is_Some (ents !! k) → is_hex k = true) →
  ∀ k, is_Some (layers_tree E created plains ents !! k) → is_hex k = true.
Proof using hex_sums.
  revert ents. induction plains as [|b plains IH]; intros ents Hk; [done|].
  cbn. apply IH. intros k. rewrite lookup_insert. case_decide; [by subst|by apply Hk].
Qed.

Lemma writeArchive_run T base ents em conf confstr created mlj s :
  is_dir base = true →
  fs s = graft T (Dir ents) base →
  (∀ k, is_Some (ents !! k) → is_hex k = true) →
  MarshalImage E conf = Ok confstr →
  Created conf = Some created →
  MarshalManifests E [set_Config (hexsum E confstr +:+ ".json") em] = Ok mlj →
  let tree :=
    Dir (<["manifest.json" := File mlj 0%Z]>
           (<[hexsum E confstr +:+ ".json" := File confstr created]> ents)) in
  ∃ s', writeArchive E [T] em conf s = (Done tt, s') ∧
    fs s' = graft T tree base ∧
    out s' = out s ++ tarBytes E tree ∧ stderr s' = stderr s.
Proof using no_fault hex_sums.
  intros Hbase Hfs Hkeys Hm Hc Hml tree.
  assert (Hw : ∀ w, get [T] (graft T w base) = Some w)
    by (intros; by apply get_graft_dir).
  set (confFile := hexsum E confstr +:+ ".json") in *.
  assert (Hfree : ∀ k, is_hex k = false → ents !! k = None).
  { intros k Hk. destruct (ents !! k) eqn:Hl; [|done].
    assert (is_hex k = true) by (apply Hkeys; by rewrite Hl). congruence. }
  unfold writeArchive, WriteFile, Chtimes, Tar.
  rewrite Hm, bind_try_ret, Encoded_FromBytes. fold confFile.
  rewrite (Join_ne _ confFile) by apply json_nonempty.
  rewrite (Join_ne _ "manifest.json") by done. cbn [app].
  rewrite bind_call, no_fault, Hfs, (fs_write_file_under (Hw _)) by done.
  rewrite write_local.
  2:{ intros es. rewrite Hfree; [done|apply json_not_hex]. }
  rewrite graft_graft, Hc, bind_deref.
  rewrite bind_call, no_fault. cbn [fs set_fs set_defers log].
  rewrite (fs_chtimes_under (Hw _)) by done.
  erewrite chtimes_local_top by apply lookup_insert_eq.
  rewrite graft_graft, insert_insert_eq, Hml, bind_try_ret.
  rewrite bind_call, no_fault. cbn [fs set_fs set_defers log].
  rewrite (fs_write_file_under (Hw _)) by done.
  rewrite write_local.
  2:{ intros es. rewrite lookup_insert. case_decide; [done|].
      rewrite Hfree; done. }
  rewrite graft_graft.
  rewrite bind_call, no_fault. cbn [fs set_fs set_defers log].
  rewrite (fs_chtimes_under (Hw _)) by done.
  erewrite chtimes_local_top by apply lookup_insert_eq.
  rewrite graft_graft, insert_insert_eq.
  rewrite bind_call, no_fault. cbn [fs set_fs set_defers log].
  rewrite Hw. fold tree.
  rewrite bind_defer, bind_CopyOut. cbv zeta. unfold copied. rewrite no_fault.
  eexists. split; [reflexivity|]. cbn. done.
Qed.

(** A healthy run returns normally, delivers the packaged work directory,
    warns exactly when the config digest does not match, and leaves the
    file system as it found it. *)
Lemma ImageExport_run ref root cd conf0 created l plains confstr mlj :
  healthy E ref root cd conf0 created l plains confstr mlj →
  ∃ s', ImageExport E ref (init root) = (Done tt, s') ∧
    fs s' = root ∧
    out s' = tarBytes E (export_tree E created plains confstr mlj) ∧
    stderr s' =
      if decide (cd ≠ FromBytes E (sdata (blobs E ref cd)))
      then [mismatch_warning cd (FromBytes E (sdata (blobs E ref cd)))]
      else [].
Proof using no_fault hex_sums.
  intros [Hname _ (es & -> & Hfresh) _ Hcd Hread Hconf Hc Hl HF Hnd Hm Hml].
  set (T := temp_name "regcli-export-" (rand E 1)) in *.
  rewrite ImageExport_start, decide_False, !no_fault by done. fold T.
  rewrite mkdir_local by done.
  destruct (exportBody _ _ _ _ _ _) as [o1 s1] eqn:Hb.
  pose proof (exportBody_closes_only E [DRemoveAll (workdir E)] _ _ _ _ _ _ _ Hb)
    as (ds & Hd & Hcl).
  { exists (@nil deferred). split; [reflexivity|constructor]. }
  unfold exportBody, workdir in Hb. fold T in Hb. unfold bind at 1 in Hb.
  rewrite getConfig_eq, Hcd in Hb. cbv zeta in Hb.
  rewrite no_fault, Hread, Hconf, Hl, bind_try_ret in Hb.
  set (s0 := if decide _ then _ else _) in Hb.
  assert (fs s0 = graft T (Dir ∅) (Dir es) ∧ out s0 = [] ∧
          stderr s0 = if decide (cd ≠ FromBytes E (sdata (blobs E ref cd)))
                      then [mismatch_warning cd (FromBytes E (sdata (blobs E ref cd)))]
                      else []) as (Hfs0 & Hout0 & Herr0).
  { subst s0. destruct (decide _); done. }
  clearbody s0.
  destruct (exportLayers_run ref T (Dir es) l plains ∅ (tagged E ref)
              (set_DiffIDs [] conf0) created s0)
    as (s2 & Hrun & Hfs2 & Hout2 & Herr2); try done.
  { intros k. rewrite lookup_empty. by intros [? ?]. }
  unfold bind at 1 in Hb. rewrite Hrun in Hb.
  destruct (writeArchive_run T (Dir es) (layers_tree E created plains ∅)
              (set_Layers (Layers (tagged E ref)
                           ++ ((λ b, hexsum E b +:+ "/layer.tar") <$> plains)) (tagged E ref))
              (set_DiffIDs (RootFS_DiffIDs (set_DiffIDs [] conf0)
                            ++ (FromBytes E <$> plains)) (set_DiffIDs [] conf0))
              confstr created mlj s2)
    as (s3 & Hrun3 & Hfs3 & Hout3 & Herr3); try done.
  { apply layers_tree_keys. intros k. rewrite lookup_empty. by intros [? ?]. }
  rewrite Hrun3 in Hb. injection Hb as <- <-.
  eexists. split; [reflexivity|].
  rewrite Hd, run_deferred_app.
  destruct (run_closes ds s3 Hcl) as (Hfs & Hout & Herr & _).
  cbn [run_deferred exec_deferred set_defers fs out stderr trace log set_fs].
  rewrite Hfs, Hout, Herr, Hfs3, Hout3, Herr3, Hout2, Herr2, Hout0, Herr0.
  split_and!; try done.
  unfold workdir. fold T. cbn. by rewrite delete_insert_eq, delete_id.
Qed.

End Healthy.

(** C4.  When nothing else fails, an export whose downloaded config does
    not hash to the digest its descriptor declares still returns normally:
    it writes the warning, and only the warning, to the error stream and
    delivers the packaged work directory. *)
Theorem ImageExport_digest_mismatch E ref root cd conf0 created l plains confstr mlj :
  healthy E ref root cd conf0 created l plains confstr mlj →
  cd ≠ FromBytes E (sdata (blobs E ref cd)) →
  ∃ s', ImageExport E ref (init root) = (Done tt, s') ∧
    stderr s' = [mismatch_warning cd (FromBytes E (sdata (blobs E ref cd)))] ∧
    out s' = tarBytes E (export_tree E created plains confstr mlj).
Proof.
  intros Hh Hne.
  destruct (ImageExport_run E (h_fault _ _ _ _ _ _ _ _ _ _ Hh)
              (h_hex _ _ _ _ _ _ _ _ _ _ Hh) _ _ _ _ _ _ _ _ _ Hh)
    as (s' & Hrun & _ & Hout & Herr).
  exists s'. rewrite decide_True in Herr by done. done.
Qed.

(** ** The programs on the small registry *)

Module DemoFacts.
Import Demo.

Lemma hexchar_hex n : hexdigit (hexchar n) = true.
Proof.
  destruct n as [|p]; [reflexivity|].
  do 4 (destruct p as [p|p|]; try reflexivity).
Qed.

Lemma hex_of_hex b : all_hex (hex_of b) = true.
Proof. induction b as [|x b IH]; [done|]. simpl. by rewrite !hexchar_hex, IH. Qed.

Lemma toy_hexsum_hex b : is_hex (toy_hexsum b) = true.
Proof. cbn. apply hex_of_hex. Qed.

Lemma demo_healthy salt :
  healthy (env two_layers (Some 1000%Z) no_fault salt) ref0 (Dir ∅)
    "sha256:c0" demo_conf 1000%Z [L1; L2] [plain1; plain2] demo_confstr demo_mlj.
Proof.
  split; try reflexivity.
  - done.
  - exists ∅. split; [reflexivity|apply lookup_empty].
  - apply toy_hexsum_hex.
  - repeat constructor.
  - apply (bool_decide_unpack _). by vm_compute.
Qed.

End DemoFacts.

Lemma ImageExport_no_common_name_witness :
  let E := Demo.env Demo.two_layers (Some 1000%Z) Demo.no_fault 0 in
  CommonName E Demo.unnamed = "" ∧
  ImageExport E Demo.unnamed (init (Dir ∅)) = (Raise ErrNotFound, init (Dir ∅)).
Proof.
  split; [reflexivity|].
  apply ImageExport_no_common_name. reflexivity.
Defined.

Lemma runLayerPull_drops_fetch_error_witness :
  let E := Demo.env Demo.two_layers (Some 1000%Z) (Demo.fault_at 0) 0 in
  fault E 0 = Some (ErrFault 0) ∧
  ∃ s2, runLayerPull E ["registry.test/repo"; "sha256:l1"] (init (Dir ∅)) = (Done tt, s2) ∧
        out s2 = [Byte.x00].
Proof.
  intros E. split; [reflexivity|].
  pose proof (runLayerPull_drops_fetch_error E "registry.test/repo" "sha256:l1"
                (init (Dir ∅))) as H.
  cbn [NewRef E Demo.env] in H. rewrite decide_False in H by done.
  destruct H as (blobIO & err & s1 & _ & _ & H).
  destruct (H (ErrFault 0) (mkStream [Byte.x00] None)) as (_ & s2 & Hrun & Hout);
    try reflexivity.
  exists s2. split; [exact Hrun|exact Hout].
Defined.

Lemma ImageCopy_push_last_witness :
  let E := Demo.env Demo.two_layers (Some 1000%Z) Demo.no_fault 0 in
  let r := ImageCopy E Demo.ref0 Demo.ref1 (init (Dir ∅)) in
  r.1 = Done tt ∧
  ∃ evs, trace r.2 = [] ++ evs ∧
    (∀ ev, ev ∈ evs → pushes ev →
       ∃ cd l,
         GetConfigDigest (manifests E Demo.ref0) = Ok cd ∧
         GetLayers (manifests E Demo.ref0) = Ok l ∧
         evs = (CManifestGet Demo.ref0, None) :: (CBlobCopy Demo.ref0 Demo.ref1 cd, None)
               :: (copied_ok Demo.ref0 Demo.ref1 <$> l)
               ++ [(CManifestPut Demo.ref1 (manifests E Demo.ref0), ev.2)]) ∧
    (∀ ev ev', ev ∈ evs → ¬ pushes ev → is_Some ev.2 → ev' ∈ evs → ¬ pushes ev').
Proof.
  intros E r. split; [reflexivity|].
  apply (ImageCopy_push_last E Demo.ref0 Demo.ref1 (init (Dir ∅)) r.1 r.2).
  apply surjective_pairing.
Defined.

Lemma ImageExport_removes_workdir_witness :
  let E := Demo.env Demo.two_layers (Some 1000%Z) (Demo.fault_at 8) 0 in
  let r := ImageExport E Demo.ref0 (init (Dir ∅)) in
  r.1 = Raise (ErrFault 8) ∧
  (CTempDir [] "regcli-export-", None) ∈ trace r.2 ∧
  get (workdir E) (fs r.2) = None ∧
  last (trace r.2) = Some (CRemoveAll (workdir E), None).
Proof.
  intros E r. split; [reflexivity|].
  assert ((CTempDir [] "regcli-export-", None) ∈ trace r.2) as Hin.
  { apply (list_elem_of_lookup_2 _ 1). vm_compute. reflexivity. }
  split; [exact Hin|].
  apply (ImageExport_removes_workdir E Demo.ref0 (Dir ∅) r.1 r.2).
  - apply surjective_pairing.
  - exact Hin.
Defined.

Lemma ImageExport_diff_ids_witness :
  let E := Demo.env Demo.two_layers (Some 1000%Z) Demo.no_fault 0 in
  let r := ImageExport E Demo.ref0 (init (Dir ∅)) in
  r.1 = Done tt ∧
  ∃ l plains conf confstr em mlj,
    GetLayers (manifests E Demo.ref0) = Ok l ∧
    Forall2 (λ d b, layer_plain E Demo.ref0 d = Some b) l plains ∧
    RootFS_DiffIDs conf = FromBytes E <$> plains ∧
    Layers em = (λ b, Encoded (FromBytes E b) +:+ "/layer.tar") <$> plains ∧
    Config em = Encoded (FromBytes E confstr) +:+ ".json" ∧
    RepoTags em = [CommonName E Demo.ref0] ∧
    length (RootFS_DiffIDs conf) = length l ∧
    length (Layers em) = length l ∧
    MarshalImage E conf = Ok confstr ∧
    MarshalManifests E [em] = Ok mlj ∧
    written_files (trace r.2) =
      [([Encoded (FromBytes E confstr) +:+ ".json"], confstr);
       (["manifest.json"], mlj)].
Proof.
  intros E r. split; [reflexivity|].
  apply (ImageExport_diff_ids E Demo.ref0 (Dir ∅) r.2).
  vm_compute. reflexivity.
Defined.

Lemma ImageExport_digest_mismatch_witness :
  let E := Demo.env Demo.two_layers (Some 1000%Z) Demo.no_fault 0 in
  "sha256:c0" ≠ FromBytes E (sdata (blobs E Demo.ref0 "sha256:c0")) ∧
  ∃ s', ImageExport E Demo.ref0 (init (Dir ∅)) = (Done tt, s') ∧
    stderr s' =
      [mismatch_warning "sha256:c0" (FromBytes E (sdata (blobs E Demo.ref0 "sha256:c0")))] ∧
    out s' = tarBytes E (export_tree E 1000%Z [Demo.plain1; Demo.plain2]
                           Demo.demo_confstr Demo.demo_mlj).
Proof.
  intros E. split; [done|].
  apply (ImageExport_digest_mismatch E Demo.ref0 (Dir ∅) "sha256:c0" Demo.demo_conf
           1000%Z [Demo.L1; Demo.L2] [Demo.plain1; Demo.plain2]
           Demo.demo_confstr Demo.demo_mlj).
  - apply DemoFacts.demo_healthy.
  - done.
Defined.

Lemma ImageExport_deterministic_witness :
  let E1 := Demo.env Demo.two_layers (Some 1000%Z) Demo.no_fault 0 in
  let E2 := Demo.env Demo.two_layers (Some 1000%Z) Demo.no_fault 7 in
  let r1 := ImageExport E1 Demo.ref0 (init (Dir ∅)) in
  let r2 := ImageExport E2 Demo.ref0 (init (Dir {["old" := File [] 0%Z]})) in
  workdir E1 ≠ workdir E2 ∧ r1.1 = Done tt ∧ r2.1 = Done tt ∧
  ∃ l plains conf confstr mlj,
    GetLayers (manifests E1 Demo.ref0) = Ok l ∧
    Forall2 (λ d b, layer_plain E1 Demo.ref0 d = Some b) l plains ∧
    Forall2 (λ d b, layer_plain E2 Demo.ref0 d = Some b) l plains ∧
    RootFS_DiffIDs conf = FromBytes E1 <$> plains ∧
    RootFS_DiffIDs conf = FromBytes E2 <$> plains ∧
    MarshalImage E1 conf = Ok confstr ∧
    MarshalImage E2 conf = Ok confstr ∧
    FromBytes E1 confstr = FromBytes E2 confstr ∧
    written_files (trace r1.2) =
      [([Encoded (FromBytes E1 confstr) +:+ ".json"], confstr);
       (["manifest.json"], mlj)] ∧
    written_files (trace r2.2) = written_files (trace r1.2).
Proof.
  intros E1 E2 r1 r2. split; [done|]. split; [reflexivity|]. split; [reflexivity|].
  apply (ImageExport_deterministic E1 E2 Demo.ref0 (Dir ∅)
           (Dir {["old" := File [] 0%Z]}) r1.2 r2.2).
  - by split.
  - vm_compute. reflexivity.
  - vm_compute. reflexivity.
Defined.

Lemma ImageExport_nil_created_witness :
  let E := Demo.env Demo.two_layers None Demo.no_fault 0 in
  let r := ImageExport E Demo.ref0 (init (Dir ∅)) in
  Created (mkImage None "layers" ["sha256:stale"] "{}") = None ∧
  (∃ old new, (CRename old new, None) ∈ trace r.2) ∧
  r.1 = Panic.
Proof.
  intros E r.
  assert (∃ old new, (CRename old new, None) ∈ trace r.2) as Hin.
  { exists ["regcli-export-1"; "layer-3"], ["regcli-export-1"; "5a0a"].
    apply (list_elem_of_lookup_2 _ 8). vm_compute. reflexivity. }
  split; [reflexivity|]. split; [exact Hin|].
  destruct (ImageExport_nil_created E Demo.ref0 (Dir ∅) r.1 r.2 "sha256:c0"
              (mkImage None "layers" ["sha256:stale"] "{}")) as [Hnil _].
  - apply surjective_pairing.
  - reflexivity.
  - reflexivity.
  - destruct (Hnil eq_refl) as [_ Hp]. apply Hp; [|exact Hin].
    exists Demo.L1, [Demo.L2]. reflexivity.
Defined.

(** ** Where the code departs from its description *)

Section Departures.
Variable E : Env.

Lemma nocopy_frame :
  (∀ r s, nocopy s → nocopy (set_fs r s)) ∧
  (∀ d s, nocopy s → nocopy (add_out d s)) ∧
  (∀ l s, nocopy s → nocopy (add_stderr l s)) ∧
  (∀ c e s, (∀ d e', (c, e) ≠ (CCopyOut d, e')) → nocopy s → nocopy (log c e s)) ∧
  (∀ s, nocopy s → nocopy (set_defers (DClose :: defers s) s)).
Proof.
  split_and!; try done.
  intros c e s Hc Hs d e'. cbn. rewrite elem_of_app, list_elem_of_singleton.
  intros [H|H]; [by eapply Hs|by eapply Hc].
Qed.

Lemma nocopy_run_deferred ds s : nocopy s → nocopy (run_deferred ds s).
Proof.
  destruct nocopy_frame as (_ & _ & _ & Hlog & _).
  revert s. induction ds as [|d ds IH]; intros s Hs; [done|].
  simpl. apply IH. destruct d; simpl; by apply Hlog.
Qed.

(** The final block either returns normally or stops before it copies. *)
Lemma writeArchive_copy T em conf s o s' :
  writeArchive E T em conf s = (o, s') → nocopy s → o = Done tt ∨ nocopy s'.
Proof.
  unfold writeArchive, WriteFile, Chtimes, Tar. intros H Hs. revert H.
  rewrite bind_try_ret. destruct (MarshalImage E conf) as [confstr|e].
  2:{ intros [= <- <-]. by right. }
  rewrite bind_call. destruct (fault E _).
  { intros [= <- <-]. right. not_logged Hs. }
  destruct (fs_write_file _ _ _ _) as [[[]|e] root1].
  2:{ intros [= <- <-]. right. not_logged Hs. }
  rewrite bind_deref. destruct (Created conf) as [created|].
  2:{ intros [= <- <-]. right. not_logged Hs. }
  rewrite bind_call. destruct (fault E _).
  { intros [= <- <-]. right. not_logged Hs. }
  destruct (fs_chtimes _ _ _) as [[[]|e] root2].
  2:{ intros [= <- <-]. right. not_logged Hs. }
  rewrite bind_try_ret. destruct (MarshalManifests E _) as [mlj|e].
  2:{ intros [= <- <-]. right. not_logged Hs. }
  rewrite bind_call. destruct (fault E _).
  { intros [= <- <-]. right. not_logged Hs. }
  destruct (fs_write_file _ _ _ _) as [[[]|e] root3].
  2:{ intros [= <- <-]. right. not_logged Hs. }
  rewrite bind_call. destruct (fault E _).
  { intros [= <- <-]. right. not_logged Hs. }
  destruct (fs_chtimes _ _ _) as [[[]|e] root4].
  2:{ intros [= <- <-]. right. not_logged Hs. }
  rewrite bind_call. destruct (fault E _).
  { intros [= <- <-]. right. not_logged Hs. }
  destruct (match get _ _ with Some _ => _ | None => _ end) as [[tar|e] root5].
  2:{ intros [= <- <-]. right. not_logged Hs. }
  rewrite bind_defer, bind_CopyOut. cbv zeta. unfold ret.
  intros [= <- <-]. by left.
Qed.

Lemma exportBody_copy ref m T em s o s' :
  exportBody E ref m T em s = (o, s') → nocopy s → o = Done tt ∨ nocopy s'.
Proof.
  destruct nocopy_frame as (H1 & H2 & H3 & H4 & H5).
  assert (Hpg : preserves nocopy (getConfig E ref m)).
  { by apply (preserves_getConfig E nocopy (λ ev, ∀ d e', ev ≠ (CCopyOut d, e'))). }
  assert (Hpl : ∀ l acc, preserves nocopy (exportLayers E ref T l acc)).
  { intros l acc.
    apply (preserves_exportLayers E nocopy (λ ev, ∀ d e', ev ≠ (CCopyOut d, e')));
      try done.
    by intros [] e He d' e'. }
  unfold exportBody. intros Hb Hs.
  apply bind_inv in Hb as [(conf & s2 & Hg & Hb) | [(e0 & Hg & ->) | (Hg & ->)]];
    specialize (Hpg _ _ _ Hg Hs); try (by right).
  rewrite bind_try_ret in Hb. destruct (GetLayers m) as [l|e0].
  2:{ injection Hb as <- <-. by right. }
  apply bind_inv in Hb as [([em' conf'] & s3 & Hl & Hb) | [(e0 & Hl & ->) | (Hl & ->)]];
    specialize (Hpl _ _ _ _ _ Hl Hpg); try (by right).
  by eapply writeArchive_copy.
Qed.

(** Whatever the copy into the output stream returns, an export that got
    as far as that copy returns nil. *)
Lemma ImageExport_copy_result_dropped ref root o s' d e :
  ImageExport E ref (init root) = (o, s') →
  (CCopyOut d, e) ∈ trace s' → o = Done tt.
Proof.
  rewrite ImageExport_start. destruct (decide _).
  { intros [= <- <-] Hin. inversion Hin. }
  destruct (fault E 0).
  { intros [= <- <-] [[=]|Hin]%elem_of_cons. inversion Hin. }
  destruct (fault E 1).
  { intros [= <- <-] [[=]|[[=]|Hin]%elem_of_cons]%elem_of_cons. inversion Hin. }
  destruct (fs_mkdir _ _ _) as [[p|e0] root1].
  2:{ intros [= <- <-] [[=]|[[=]|Hin]%elem_of_cons]%elem_of_cons. inversion Hin. }
  destruct (exportBody _ _ _ _ _ _) as [o1 s1] eqn:Hb. intros [= <- <-] Hin.
  apply exportBody_copy in Hb as [->|Hno]; [done| |].
  - exfalso. by eapply (nocopy_run_deferred (defers s1) s1 Hno).
  - intros d' e' [[=]|[[=]|Hin']%elem_of_cons]%elem_of_cons. inversion Hin'.
Qed.

End Departures.

(** C3 (fails on the code).  With a fault injected into the final copy, the
    export has written one byte of a four-byte archive to the output stream
    and still returns nil: the error of [io.Copy] is assigned and never
    returned. *)
Theorem ImageExport_copy_error_dropped :
  let E := Demo.env Demo.two_layers (Some 1000%Z) (Demo.fault_at 22) 0 in
  let r := ImageExport E Demo.ref0 (init (Dir ∅)) in
  r.1 = Done tt ∧
  trace r.2 !! 22 = Some (CCopyOut [Byte.x01], Some (ErrFault 22)) ∧
  out r.2 = [Byte.x01] ∧
  tarBytes E (export_tree E 1000%Z [Demo.plain1; Demo.plain2]
                Demo.demo_confstr Demo.demo_mlj)
  = [Byte.x01; Byte.x01; Byte.x01; Byte.x01].
Proof. vm_compute. auto. Qed.

(** C5 (fails on the code).  Two descriptors with different digests whose
    blobs decompress to the same bytes: the second rename finds the
    directory of the first layer in its way, [os.Rename] reports EEXIST and
    the export returns that error without delivering anything. *)
Theorem ImageExport_twin_layers_fail :
  let E := Demo.env Demo.twin_layers (Some 1000%Z) Demo.no_fault 0 in
  let r := ImageExport E Demo.ref0 (init (Dir ∅)) in
  DescDigest Demo.L1 ≠ DescDigest Demo.L3 ∧
  layer_plain E Demo.ref0 Demo.L1 = Some Demo.plain1 ∧
  layer_plain E Demo.ref0 Demo.L3 = Some Demo.plain1 ∧
  r.1 = Raise (Errno "EEXIST") ∧
  trace r.2 !! 15 =
    Some (CRename ["regcli-export-1"; "layer-:"] ["regcli-export-1"; "5a0a"],
          Some (Errno "EEXIST")) ∧
  out r.2 = [].
Proof. split; [done|]. vm_compute. auto 10. Qed.

(** C6 (fails on the code).  Two exports of the same image from the same
    registry, with the same temporary names and nothing failing, the second
    one later by the clock.  [os.Chtimes] is called on the two [layer.tar]
    files, on the config file and on [manifest.json], and on no directory:
    inside the packed tree [5a0a/layer.tar] carries the creation time of
    the image, while the directory [5a0a/] that [archive.Tar] reads carries
    the wall-clock time of the call that created the file in it (call 5,
    [os.OpenFile]).  That time differs between the two runs, so wall-clock
    time does reach the archive.  The directories found from the calls are
    those of the packed tree, with the same names in them. *)
Theorem ImageExport_directory_times :
  let E1 := Demo.env Demo.two_layers (Some 1000%Z) Demo.no_fault 0 in
  let E2 := Demo.later 4000 E1 in
  let r1 := ImageExport E1 Demo.ref0 (init (Dir ∅)) in
  let r2 := ImageExport E2 Demo.ref0 (init (Dir ∅)) in
  let work := "regcli-export-1" in
  let tree := export_tree E1 1000%Z [Demo.plain1; Demo.plain2]
                Demo.demo_confstr Demo.demo_mlj in
  same_registry E1 E2 ∧
  r1.1 = Done tt ∧ r2.1 = Done tt ∧
  trace r1.2 !! 5 = Some (COpenFile [work; "layer-3"; "layer.tar"], None) ∧
  trace r2.2 !! 5 = Some (COpenFile [work; "layer-3"; "layer.tar"], None) ∧
  chtimes_targets (trace r1.2) =
    [[work; "5a0a"; "layer.tar"]; [work; "5a0b"; "layer.tar"];
     [work; "5a7368613235363a356130612c7368613235363a35613062.json"];
     [work; "manifest.json"]] ∧
  chtimes_targets (trace r2.2) = chtimes_targets (trace r1.2) ∧
  get ["5a0a"; "layer.tar"] tree = Some (File Demo.plain1 1000%Z) ∧
  (λ d, (dpath d, dnames d)) <$> packed_dirs E1 (trace r1.2) =
    [([work; "5a0b"], ["layer.tar"]); ([work; "5a0a"], ["layer.tar"]);
     ([work],
      ["manifest.json"; "5a7368613235363a356130612c7368613235363a35613062.json";
       "5a0b"; "5a0a"])] ∧
  packed_dir_time E1 (trace r1.2) [work; "5a0a"] = Some (now E1 5) ∧
  packed_dir_time E2 (trace r2.2) [work; "5a0a"] = Some (now E2 5) ∧
  now E1 5 = 5005%Z ∧ now E2 5 = 9005%Z.
Proof.
  split; [by split|]. vm_compute. auto 20.
Qed.

(** * Further properties *)

(** ** [ImageInspect] and [ImageCopy]: the calls of a run *)

Section Inspect.
Variable E : Env.

(** X1.  When the two registry calls succeed, the manifest names a config
    digest and the config blob can be read and decoded, [ImageInspect]
    returns the decoded image after exactly two calls, the manifest fetch
    and the config fetch, and changes nothing but the trace.  The bytes are
    decoded whether or not they hash to the digest asked for: no check of
    the digest is made. *)
Theorem ImageInspect_returns_config ref cd img s :
  fault E (length (trace s)) = None →
  fault E (S (length (trace s))) = None →
  GetConfigDigest (manifests E ref) = Ok cd →
  serr (blobs E ref cd) = None →
  Unmarshal E (sdata (blobs E ref cd)) = Ok img →
  ∃ s', ImageInspect E ref s = (Done img, s') ∧
    trace s' = trace s ++
      [(CManifestGet ref, None);
       (CBlobGet ref cd [MediaTypeDocker2ImageConfig; MediaTypeImageConfig], None)] ∧
    same_but_trace s s'.
Proof.
  intros Hf0 Hf1 Hcd Hserr Hun.
  unfold ImageInspect, ManifestGet.
  rewrite bind_call, Hf0, bind_try_ret, Hcd, bind_BlobGet.
  cbn [trace log set_fs]. rewrite length_app, Nat.add_1_r, Hf1.
  rewrite bind_check. unfold ReadAll. rewrite bind_try_ret, Hserr, bind_try_ret, Hun.
  eexists. split; [reflexivity|]. cbn. rewrite <- app_assoc. done.
Qed.

(** X2.  However [ImageInspect] ends, it has made at most two calls, a
    manifest fetch and then a config fetch, of which only the last can have
    failed; it never panics and changes nothing but the trace; and an image
    it returns is the decoding of the config blob of the manifest. *)
Theorem ImageInspect_read_only ref s o s' :
  ImageInspect E ref s = (o, s') →
  same_but_trace s s' ∧
  o ≠ Panic ∧
  (∃ evs, trace s' = trace s ++ evs ∧ (length evs ≤ 2)%nat ∧ only_last_fails evs ∧
     ∀ ev, ev ∈ evs →
       ev.1 = CManifestGet ref ∨ ∃ cd, GetConfigDigest (manifests E ref) = Ok cd ∧
         ev.1 = CBlobGet ref cd [MediaTypeDocker2ImageConfig; MediaTypeImageConfig]) ∧
  (∀ img, o = Done img →
     ∃ cd, GetConfigDigest (manifests E ref) = Ok cd ∧
           serr (blobs E ref cd) = None ∧
           Unmarshal E (sdata (blobs E ref cd)) = Ok img).
Proof.
  unfold ImageInspect, ManifestGet.
  rewrite bind_call. destruct (fault E _).
  { intros [= <- <-]. split_and!; try done.
    - exists [(CManifestGet ref, Some e)]. split_and!; try done.
      + simpl; lia.
      + intros i ev Hi Hlt. simpl in Hlt. lia.
      + intros ev ->%list_elem_of_singleton. by left. }
  rewrite bind_try_ret. destruct (GetConfigDigest _) as [cd|e] eqn:Hcd.
  2:{ intros [= <- <-]. split_and!; try done.
      exists [(CManifestGet ref, None)]. split_and!; try done.
      + simpl; lia.
      + intros i ev Hi Hlt. simpl in Hlt. lia.
      + intros ev ->%list_elem_of_singleton. by left. }
  assert (Hev : ∀ (e0 : option error) (ev : event),
    ev ∈ [(CManifestGet ref, None);
          (CBlobGet ref cd [MediaTypeDocker2ImageConfig; MediaTypeImageConfig], e0)] →
    ev.1 = CManifestGet ref ∨ ∃ cd0, Ok cd = Ok cd0 ∧
      ev.1 = CBlobGet ref cd0 [MediaTypeDocker2ImageConfig; MediaTypeImageConfig]).
  { intros e0 ev [->|[->|[]%elem_of_nil]%elem_of_cons]%elem_of_cons; [by left|right; eauto]. }
  assert (Hlast : ∀ e0 : option error, only_last_fails
    [(CManifestGet ref, None);
     (CBlobGet ref cd [MediaTypeDocker2ImageConfig; MediaTypeImageConfig], e0)]).
  { intros e0 [|[|i]] ev Hi Hlt; simpl in *; try lia. by injection Hi as <-. }
  rewrite bind_BlobGet. destruct (fault E _).
  { rewrite bind_check. intros [= <- <-]. split_and!; try done.
    eexists. split; [cbn; rewrite <- app_assoc; reflexivity|].
    split_and!; [simpl; lia|apply Hlast|apply Hev]. }
  rewrite bind_check. unfold ReadAll. rewrite bind_try_ret.
  destruct (serr _) eqn:Hserr.
  { intros [= <- <-]. split_and!; try done.
    eexists. split; [cbn; rewrite <- app_assoc; reflexivity|].
    split_and!; [simpl; lia|apply Hlast|apply Hev]. }
  rewrite bind_try_ret. destruct (Unmarshal E _) as [img|e] eqn:Hun.
  2:{ intros [= <- <-]. split_and!; try done.
      eexists. split; [cbn; rewrite <- app_assoc; reflexivity|].
    split_and!; [simpl; lia|apply Hlast|apply Hev]. }
  intros [= <- <-]. split_and!; try done.
  - eexists. split; [cbn; rewrite <- app_assoc; reflexivity|].
    split_and!; [simpl; lia|apply Hlast|apply Hev].
  - intros img' [= <-]. eauto.
Qed.

End Inspect.

Section Copy.
Variable E : Env.

Lemma copyLayers_shape src tgt l s o s' :
  copyLayers E src tgt l s = (o, s') →
  same_but_trace s s' ∧
  ∃ l1 tail, trace s' = trace s ++ (copied_ok src tgt <$> l1) ++ tail ∧
    match o with
    | Done _ => l1 = l ∧ tail = []
    | Raise e =>
        ∃ d l2, l = l1 ++ d :: l2 ∧
                tail = [(CBlobCopy src tgt (DescDigest d), Some e)]
    | Panic => False
    end.
Proof.
  revert s. induction l as [|d l IH]; intros s; simpl.
  - intros [= <- <-]. split; [done|]. exists [], []. by rewrite app_nil_r.
  - unfold BlobCopy. rewrite bind_call. destruct (fault E _) as [e|].
    + intros [= <- <-]. split; [done|]. exists [], [(CBlobCopy src tgt (DescDigest d), Some e)].
      split; [done|]. by exists d, l.
    + intros H. apply IH in H as ((Hfs & Hout & Herr & Hdef) & l1 & tail & Htr & Ho).
      split; [done|]. exists (d :: l1), tail. rewrite Htr. cbn.
      rewrite <- app_assoc. split; [done|].
      destruct o as [[]|e|]; [|destruct Ho as (d' & l2 & -> & ->); eauto|done].
      by destruct Ho as [-> ->].
Qed.

Lemma ImageCopy_shape src tgt s o s' :
  ImageCopy E src tgt s = (o, s') →
  same_but_trace s s' ∧
  ∃ done tail,
    trace s' = trace s ++ (okev <$> done) ++ tail ∧
    (done ++ (fst <$> tail)) `prefix_of` copy_plan E src tgt ∧
    match o with
    | Done _ =>
        tail = [] ∧ done = copy_plan E src tgt ∧
        is_Some (ok (GetConfigDigest (manifests E src))) ∧
        is_Some (ok (GetLayers (manifests E src)))
    | Raise e =>
        (∃ c, tail = [(c, Some e)]) ∨
        (tail = [] ∧
         (GetConfigDigest (manifests E src) = Err e ∨
          GetLayers (manifests E src) = Err e))
    | Panic => False
    end.
Proof.
  unfold ImageCopy, ManifestGet, BlobCopy, ManifestPut, copy_plan.
  rewrite bind_call. destruct (fault E _) as [e|].
  { intros [= <- <-]. split; [done|]. exists [], [(CManifestGet src, Some e)].
    split; [done|]. split; [by apply prefix_cons, prefix_nil|eauto]. }
  rewrite bind_try_ret.
  destruct (GetConfigDigest (manifests E src)) as [cd|e] eqn:Hcd.
  2:{ intros [= <- <-]. split; [done|]. exists [CManifestGet src], [].
      split; [done|]. split; [by rewrite app_nil_r|eauto]. }
  rewrite bind_call. destruct (fault E _) as [e|].
  { intros [= <- <-]. split; [done|].
    exists [CManifestGet src], [(CBlobCopy src tgt cd, Some e)].
    split; [by cbn; rewrite <- app_assoc|].
    split; [apply prefix_cons, prefix_cons, prefix_nil|eauto]. }
  rewrite bind_try_ret.
  destruct (GetLayers (manifests E src)) as [l|e] eqn:Hl.
  2:{ intros [= <- <-]. split; [done|].
      exists [CManifestGet src; CBlobCopy src tgt cd], [].
      split; [by cbn; rewrite <- app_assoc|].
      split; [by rewrite app_nil_r|eauto]. }
  intros H.
  apply bind_inv in H as [([] & s3 & Hc & H) | [(e & Hc & ->) | (Hc & ->)]];
    apply copyLayers_shape in Hc as ((Hfs & Hout & Herr & Hdef) & l1 & tail & Htr & Ho);
    cbn in Hfs, Hout, Herr, Hdef, Htr.
  - destruct Ho as [-> ->]. rewrite app_nil_r in Htr.
    rewrite bind_call in H. destruct (fault E _) as [e|].
    + injection H as <- <-. split; [done|].
      exists (CManifestGet src :: CBlobCopy src tgt cd
              :: ((λ d, CBlobCopy src tgt (DescDigest d)) <$> l)),
             [(CManifestPut tgt (manifests E src), Some e)].
      split; [|split; [done|eauto]].
      cbn. rewrite Htr, <- !app_assoc, <- list_fmap_compose. done.
    + injection H as <- <-. split; [done|].
      exists (CManifestGet src :: CBlobCopy src tgt cd
              :: ((λ d, CBlobCopy src tgt (DescDigest d)) <$> l)
              ++ [CManifestPut tgt (manifests E src)]), [].
      split; [|split; [by rewrite app_nil_r|split_and!; eauto]].
      cbn. rewrite Htr, <- !app_assoc, app_nil_r, fmap_app, <- list_fmap_compose. done.
  - destruct Ho as (d & l2 & -> & ->). split; [done|].
    exists (CManifestGet src :: CBlobCopy src tgt cd
            :: ((λ d, CBlobCopy src tgt (DescDigest d)) <$> l1)),
           [(CBlobCopy src tgt (DescDigest d), Some e)].
    split; [|split; [|eauto]].
    + cbn. rewrite Htr, <- !app_assoc, <- list_fmap_compose. done.
    + cbn. do 2 apply prefix_cons. rewrite fmap_app, <- app_assoc. cbn.
      apply prefix_app, prefix_cons, prefix_nil.
  - done.
Qed.

Lemma fst_okev (l : list call) : (fst <$> (okev <$> l)) = l.
Proof. rewrite <- list_fmap_compose. by rewrite list_fmap_id. Qed.

(** X3.  [ImageCopy] stops at the first failure: the calls of any run are a
    prefix of the calls of a complete copy, only the last of them can have
    failed, and a returned error is the error of that last call or of
    reading the config digest or the layers off the manifest.  The run
    never panics and touches neither the file system nor the output. *)
Theorem ImageCopy_stops_at_first_error src tgt s o s' :
  ImageCopy E src tgt s = (o, s') →
  same_but_trace s s' ∧
  o ≠ Panic ∧
  ∃ evs, trace s' = trace s ++ evs ∧
    (fst <$> evs) `prefix_of` copy_plan E src tgt ∧
    only_last_fails evs ∧
    ∀ e, o = Raise e →
      (∃ c, last evs = Some (c, Some e)) ∨
      GetConfigDigest (manifests E src) = Err e ∨
      GetLayers (manifests E src) = Err e.
Proof.
  intros (Hsame & done & tail & Htr & Hpre & Ho)%ImageCopy_shape.
  split; [done|]. split; [by intros ->|].
  exists ((okev <$> done) ++ tail). split; [done|].
  rewrite fmap_app, fst_okev. split; [done|].
  assert (length tail ≤ 1)%nat as Hlen.
  { destruct o as [[]|e|]; [destruct Ho as [-> _]; simpl; lia| |done].
    destruct Ho as [[c ->]|[-> _]]; simpl; lia. }
  split.
  - intros i ev Hi Hlt. rewrite length_app in Hlt.
    rewrite lookup_app_l in Hi by (rewrite length_fmap in *; lia).
    apply list_lookup_fmap_Some in Hi as (c & -> & _). done.
  - intros e ->. destruct Ho as [[c ->]|[-> Hacc]].
    + left. exists c. by rewrite last_snoc.
    + by right.
Qed.

(** X4.  [ImageCopy] returns nil exactly when it made every call of a
    complete copy with success: the manifest fetch, the copy of the config
    blob, the copy of every layer in manifest order and the manifest push. *)
Theorem ImageCopy_nil_iff src tgt s o s' :
  ImageCopy E src tgt s = (o, s') →
  o = Done tt ↔
    is_Some (ok (GetConfigDigest (manifests E src))) ∧
    is_Some (ok (GetLayers (manifests E src))) ∧
    trace s' = trace s ++ (okev <$> copy_plan E src tgt).
Proof.
  intros (Hsame & done & tail & Htr & Hpre & Ho)%ImageCopy_shape. split.
  - intros ->. destruct Ho as (-> & -> & Hcd & Hl).
    by rewrite app_nil_r in Htr.
  - intros (Hcd & Hl & Htr'). rewrite Htr in Htr'. apply app_inv_head in Htr'.
    destruct o as [[]|e|]; [done| |done].
    destruct Ho as [[c ->]|[-> [He|He]]].
    + apply (f_equal last) in Htr'. rewrite last_snoc, fmap_last in Htr'.
      destruct (last (copy_plan E src tgt)); discriminate.
    + rewrite He in Hcd. by destruct Hcd.
    + rewrite He in Hl. by destruct Hl.
Qed.

End Copy.

(** ** [runLayerPull] and the output stream of [ImageExport] *)

Section Pull.
Variable E : Env.

(** X5.  When the fetch fails and hands back no reader, [runLayerPull]
    passes the nil reader to [io.Copy]: the command panics instead of
    returning the error of the fetch. *)
Theorem runLayerPull_nil_reader_panics arg0 arg1 ref e s :
  NewRef E arg0 = Ok ref →
  fault E (length (trace s)) = Some e →
  failed_reader E (length (trace s)) = None →
  runLayerPull E [arg0; arg1] s = (Panic, log (CBlobGet ref arg1 []) (Some e) s).
Proof.
  intros Href Hf Hr. unfold runLayerPull.
  change ([arg0; arg1] !! 0) with (Some arg0).
  change ([arg0; arg1] !! 1) with (Some arg1).
  rewrite bind_deref, bind_try_ret, Href, bind_deref, bind_BlobGet, Hf, Hr.
  reflexivity.
Qed.

(** X6.  After a successful fetch [runLayerPull] writes the blob to standard
    output and returns the result of that copy: nil with all of the blob
    written, the error of reading the blob, or the error of a failed write
    with the bytes written until then.  Nothing else is touched. *)
Theorem runLayerPull_writes_blob arg0 arg1 ref s :
  NewRef E arg0 = Ok ref →
  fault E (length (trace s)) = None →
  ∃ s', runLayerPull E [arg0; arg1] s =
        (match fault E (S (length (trace s))), serr (blobs E ref arg1) with
         | Some e, _ => Raise e
         | None, Some e => Raise e
         | None, None => Done tt
         end, s') ∧
    out s' = out s ++
      match fault E (S (length (trace s))) with
      | Some _ => take (short E (S (length (trace s)))) (sdata (blobs E ref arg1))
      | None => sdata (blobs E ref arg1)
      end ∧
    fs s' = fs s ∧ stderr s' = stderr s.
Proof.
  intros Href Hf. unfold runLayerPull.
  change ([arg0; arg1] !! 0) with (Some arg0).
  change ([arg0; arg1] !! 1) with (Some arg1).
  rewrite bind_deref, bind_try_ret, Href, bind_deref, bind_BlobGet, Hf.
  rewrite bind_CopyOut. cbv zeta. unfold copied.
  cbn [trace log]. rewrite length_app, Nat.add_1_r.
  destruct (fault E (S _)) as [e|]; cbn.
  - eexists. split; [reflexivity|]. done.
  - destruct (serr _); cbn; eexists; (split; [reflexivity|]); done.
Qed.

End Pull.

Section ExportFrame.
Variable E : Env.

Lemma out_run_deferred ds s :
  out (run_deferred ds s) = out s ∧ stderr (run_deferred ds s) = stderr s.
Proof.
  revert s. induction ds as [|d ds IH]; intros s; [done|].
  simpl. destruct (IH (exec_deferred d s)) as [-> ->]. by destruct d.
Qed.

(** The final block writes to the output stream in its last call only. *)
Lemma writeArchive_output T em conf s o s' :
  writeArchive E T em conf s = (o, s') →
  (o = Done tt ∧ ∃ d e, last (trace s') = Some (CCopyOut d, e) ∧ out s' = out s ++ d) ∨
  (o ≠ Done tt ∧ out s' = out s ∧ (nocopy s → nocopy s')).
Proof.
  unfold writeArchive, WriteFile, Chtimes, Tar.
  rewrite bind_try_ret. destruct (MarshalImage E conf) as [confstr|e].
  2:{ intros [= <- <-]. by right. }
  rewrite bind_call. destruct (fault E _).
  { intros [= <- <-]. right. split_and!; try done. intros Hs. not_logged Hs. }
  destruct (fs_write_file _ _ _ _) as [[[]|e] root1].
  2:{ intros [= <- <-]. right. split_and!; try done. intros Hs. not_logged Hs. }
  rewrite bind_deref. destruct (Created conf) as [created|].
  2:{ intros [= <- <-]. right. split_and!; try done. intros Hs. not_logged Hs. }
  rewrite bind_call. destruct (fault E _).
  { intros [= <- <-]. right. split_and!; try done. intros Hs. not_logged Hs. }
  destruct (fs_chtimes _ _ _) as [[[]|e] root2].
  2:{ intros [= <- <-]. right. split_and!; try done. intros Hs. not_logged Hs. }
  rewrite bind_try_ret. destruct (MarshalManifests E _) as [mlj|e].
  2:{ intros [= <- <-]. right. split_and!; try done. intros Hs. not_logged Hs. }
  rewrite bind_call. destruct (fault E _).
  { intros [= <- <-]. right. split_and!; try done. intros Hs. not_logged Hs. }
  destruct (fs_write_file _ _ _ _) as [[[]|e] root3].
  2:{ intros [= <- <-]. right. split_and!; try done. intros Hs. not_logged Hs. }
  rewrite bind_call. destruct (fault E _).
  { intros [= <- <-]. right. split_and!; try done. intros Hs. not_logged Hs. }
  destruct (fs_chtimes _ _ _) as [[[]|e] root4].
  2:{ intros [= <- <-]. right. split_and!; try done. intros Hs. not_logged Hs. }
  rewrite bind_call. destruct (fault E _).
  { intros [= <- <-]. right. split_and!; try done. intros Hs. not_logged Hs. }
  destruct (match get _ _ with Some _ => _ | None => _ end) as [[tar|e] root5].
  2:{ intros [= <- <-]. right. split_and!; try done. intros Hs. not_logged Hs. }
  rewrite bind_defer, bind_CopyOut. cbv zeta. unfold ret.
  intros [= <- <-]. left. split; [done|]. eexists _, _. cbn.
  split; [by rewrite last_snoc|done].
Qed.

Lemma out_frame (o0 : bytes) :
  (∀ r s, out s = o0 → out (set_fs r s) = o0) ∧
  (∀ l s, out s = o0 → out (add_stderr l s) = o0) ∧
  (∀ c e s, True → out s = o0 → out (log c e s) = o0) ∧
  (∀ s, out s = o0 → out (set_defers (DClose :: defers s) s) = o0).
Proof. done. Qed.

Lemma exportBody_output ref m T em s o s' :
  exportBody E ref m T em s = (o, s') → nocopy s →
  (o = Done tt ∧ ∃ d e, last (trace s') = Some (CCopyOut d, e) ∧ out s' = out s ++ d) ∨
  (o ≠ Done tt ∧ out s' = out s ∧ nocopy s').
Proof.
  destruct nocopy_frame as (H1 & H2 & H3 & H4 & H5).
  destruct (out_frame (out s)) as (O1 & O3 & O4 & O5).
  assert (Hpg : preserves nocopy (getConfig E ref m)).
  { by apply (preserves_getConfig E nocopy (λ ev, ∀ d e', ev ≠ (CCopyOut d, e'))). }
  assert (Hpl : ∀ l acc, preserves nocopy (exportLayers E ref T l acc)).
  { intros l acc.
    apply (preserves_exportLayers E nocopy (λ ev, ∀ d e', ev ≠ (CCopyOut d, e')));
      try done.
    by intros [] e He d' e'. }
  assert (Hog : preserves (λ s0, out s0 = out s) (getConfig E ref m)).
  { by apply (preserves_getConfig E _ (λ _, True)). }
  assert (Hol : ∀ l acc, preserves (λ s0, out s0 = out s) (exportLayers E ref T l acc)).
  { intros l acc. by apply (preserves_exportLayers E _ (λ _, True)). }
  unfold exportBody. intros Hb Hs.
  apply bind_inv in Hb as [(conf & s2 & Hg & Hb) | [(e0 & Hg & ->) | (Hg & ->)]];
    specialize (Hpg _ _ _ Hg Hs); specialize (Hog _ _ _ Hg eq_refl);
    try (by right).
  rewrite bind_try_ret in Hb. destruct (GetLayers m) as [l|e0].
  2:{ injection Hb as <- <-. by right. }
  apply bind_inv in Hb as [([em' conf'] & s3 & Hl & Hb) | [(e0 & Hl & ->) | (Hl & ->)]];
    specialize (Hpl _ _ _ _ _ Hl Hpg); specialize (Hol _ _ _ _ _ Hl Hog);
    try (by right).
  apply writeArchive_output in Hb as [(-> & d & e & Hlast & Hout)|(Hne & Hout & Hno)].
  - left. split; [done|]. exists d, e. split; [done|]. congruence.
  - right. split_and!; [done|congruence|auto].
Qed.

(** X7.  The output stream of [ImageExport] is written by one call only, the
    final copy: a run that returns nil delivered what that copy moved, and a
    run that ends in an error or a panic made no copy and delivered
    nothing. *)
Theorem ImageExport_output ref root o s' :
  ImageExport E ref (init root) = (o, s') →
  (o = Done tt ∧ ∃ d e, (CCopyOut d, e) ∈ trace s' ∧ out s' = d) ∨
  (o ≠ Done tt ∧ out s' = [] ∧ nocopy s').
Proof.
  rewrite ImageExport_start. destruct (decide _).
  { intros [= <- <-]. right. split_and!; try done. intros d e1 Hin. inversion Hin. }
  assert (∀ (e : option error) c root1,
    nocopy (mkState root1 [] [] [(CManifestGet ref, e)] []) ∧
    nocopy (mkState root1 [] [] [(CManifestGet ref, None); (CTempDir [] c, e)] [])) as Hno.
  { intros e c root1. split.
    - intros d' e' [[=]|Hin']%elem_of_cons. inversion Hin'.
    - intros d' e' [[=]|[[=]|Hin']%elem_of_cons]%elem_of_cons. inversion Hin'. }
  destruct (fault E 0).
  { intros [= <- <-]. right. split_and!; try done. apply (Hno _ ""). }
  destruct (fault E 1).
  { intros [= <- <-]. right. split_and!; try done. apply Hno. }
  destruct (fs_mkdir _ _ _) as [[p|e0] root1].
  2:{ intros [= <- <-]. right. split_and!; try done. apply Hno. }
  destruct (exportBody _ _ _ _ _ _) as [o1 s1] eqn:Hb. intros [= <- <-].
  destruct (out_run_deferred (defers s1) s1) as [Hout _].
  apply exportBody_output in Hb as [(-> & d & e1 & Hlast & Hd)|(Hne & Hd & Hno1)].
  - left. split; [done|]. exists d, e1. cbn [out trace set_defers init]. rewrite Hout, Hd.
    split; [|done].
    apply last_Some in Hlast as [l' Hl'].
    assert (∀ ds s, ∃ evs, trace (run_deferred ds s) = trace s ++ evs) as Htr.
    { clear. induction ds as [|d ds IH]; intros s.
      - exists []. by rewrite app_nil_r.
      - simpl. destruct (IH (exec_deferred d s)) as [evs ->].
        destruct d; cbn; rewrite <- app_assoc; eauto. }
    destruct (Htr (defers s1) s1) as [evs ->]. rewrite Hl'.
    rewrite !elem_of_app, list_elem_of_singleton. auto.
  - right. cbn [out trace set_defers]. rewrite Hout, Hd. split_and!; try done.
    by apply nocopy_run_deferred.
  - intros d' e' [[=]|[[=]|Hin']%elem_of_cons]%elem_of_cons. inversion Hin'.
Qed.

End ExportFrame.

(** ** What [ImageExport] leaves alone *)

Section More.
Variable E : Env.

Lemma preserves_exportBody (I : state → Prop) (oke : event → Prop) ref m T em :
  (∀ r s, I s → I (set_fs r s)) →
  (∀ d s, I s → I (add_out d s)) →
  (∀ l s, I s → I (add_stderr l s)) →
  (∀ c e s, oke (c, e) → I s → I (log c e s)) →
  (∀ s, I s → I (set_defers (DClose :: defers s) s)) →
  (∀ c e, layer_call c = true ∨ archive_call c = true → oke (c, e)) →
  preserves I (exportBody E ref m T em).
Proof.
  intros H1 H2 H3 H4 H5 Hc. unfold exportBody.
  apply preserves_bind.
  { apply (preserves_getConfig E I oke); auto. }
  intros conf. apply preserves_bind; [apply preserves_try; apply preserves_ret|intros l].
  apply preserves_bind.
  { apply (preserves_exportLayers E I oke); auto. }
  intros [em' conf']. apply (preserves_writeArchive E I oke); auto.
Qed.

(** X8.  [ImageExport] only reads from the registry: no run, however it ends,
    contains a manifest push or a blob copy. *)
Theorem ImageExport_never_writes_registry ref root o s' :
  ImageExport E ref (init root) = (o, s') →
  ∀ ev, ev ∈ trace s' → ¬ registry_write ev.
Proof.
  intros H. apply Forall_forall. change (quiet s').
  assert (Hlog : ∀ c e s, ¬ registry_write (c, e) → quiet s → quiet (log c e s)).
  { intros c e s Hc Hs. unfold quiet. cbn. apply Forall_app. split; [done|].
    by constructor. }
  assert (Hrd : ∀ ds s, quiet s → quiet (run_deferred ds s)).
  { induction ds as [|d ds IH]; intros s Hs; [done|]. simpl. apply IH.
    destruct d; apply Hlog; try done; intros [(?&?&[=])|(?&?&?&[=])]. }
  assert (Hnw : ∀ c e, layer_call c = true ∨ archive_call c = true →
                       ¬ registry_write (c, e)).
  { intros c e Hc [(?&?&Heq)|(?&?&?&Heq)]; simpl in Heq; subst c;
      by destruct Hc. }
  rewrite ImageExport_start in H. destruct (decide _).
  { injection H as <- <-. constructor. }
  assert (∀ e1, ¬ registry_write (CManifestGet ref, e1)) as Hmg.
  { intros e1 [(?&?&[=])|(?&?&?&[=])]. }
  assert (∀ e1, ¬ registry_write (CTempDir [] "regcli-export-", e1)) as Htd.
  { intros e1 [(?&?&[=])|(?&?&?&[=])]. }
  destruct (fault E 0).
  { injection H as <- <-. repeat first [apply List.Forall_nil | apply List.Forall_cons; [first [apply Hmg | apply Htd]|]]. }
  destruct (fault E 1).
  { injection H as <- <-. repeat first [apply List.Forall_nil | apply List.Forall_cons; [first [apply Hmg | apply Htd]|]]. }
  destruct (fs_mkdir _ _ _) as [[p|e0] root1].
  2:{ injection H as <- <-. repeat first [apply List.Forall_nil | apply List.Forall_cons; [first [apply Hmg | apply Htd]|]]. }
  destruct (exportBody _ _ _ _ _ _) as [o1 s1] eqn:Hb. injection H as <- <-.
  apply (Hrd (defers s1) s1).
  eapply (preserves_exportBody quiet (λ ev, ¬ registry_write ev)) in Hb; try done.
  apply Hb. unfold quiet. cbn.
  repeat first [apply List.Forall_nil | apply List.Forall_cons; [first [apply Hmg | apply Htd]|]].
Qed.

(** X9.  The error stream of a run of [ImageExport] is empty or holds the one
    warning about the config digest, and it holds the warning only if the
    config bytes do not hash to the digest the manifest declares. *)
Theorem ImageExport_warns_only_on_mismatch ref root o s' :
  ImageExport E ref (init root) = (o, s') →
  stderr s' = [] ∨
  ∃ cd, GetConfigDigest (manifests E ref) = Ok cd ∧
        cd ≠ FromBytes E (sdata (blobs E ref cd)) ∧
        stderr s' = [mismatch_warning cd (FromBytes E (sdata (blobs E ref cd)))].
Proof.
  rewrite ImageExport_start. destruct (decide _); [intros [= <- <-]; by left|].
  destruct (fault E 0); [intros [= <- <-]; by left|].
  destruct (fault E 1); [intros [= <- <-]; by left|].
  destruct (fs_mkdir _ _ _) as [[p|e0] root1]; [|intros [= <- <-]; by left].
  destruct (exportBody _ _ _ _ _ _) as [o1 s1] eqn:Hb. intros [= <- <-].
  cbn [stderr set_defers].
  destruct (out_run_deferred (defers s1) s1) as [_ ->].
  assert (Hrest : ∀ (x : list string) T l em conf s2 o2 s3,
    (acc <- exportLayers E ref T l (em, conf);;
     let '(em', conf') := acc in writeArchive E T em' conf')%go s2 = (o2, s3) →
    stderr s2 = x → stderr s3 = x).
  { intros x T l em conf s2 o2 s3 Hr Hx.
    assert (preserves (λ s0, stderr s0 = x)
      (acc <- exportLayers E ref T l (em, conf);;
       let '(em', conf') := acc in writeArchive E T em' conf')%go) as Hp.
    { apply preserves_bind.
      - by apply (preserves_exportLayers E _ (λ _, True)).
      - intros [em' conf']. by apply (preserves_writeArchive E _ (λ _, True)). }
    by apply (Hp _ _ _ Hr). }
  unfold exportBody in Hb.
  apply bind_inv in Hb as [(conf & s2 & Hg & Hb) | [(e0 & Hg & ->) | (Hg & ->)]];
    rewrite getConfig_eq in Hg; cbv zeta in Hg;
    destruct (GetConfigDigest _) as [cd|e1] eqn:Hcd; try (injection Hg as <- <-; by left);
    try discriminate Hg;
    (destruct (fault E _); [try discriminate Hg; injection Hg as <- <-; by left|]);
    (destruct (serr _); [try discriminate Hg; injection Hg as <- <-; by left|]);
    destruct (Unmarshal E _) as [conf0|e1]; try discriminate Hg; injection Hg as <- <-.
  - rewrite bind_try_ret in Hb.
    assert (stderr s1 = stderr (if decide (cd ≠ FromBytes E (sdata (blobs E ref cd)))
       then add_stderr (mismatch_warning cd (FromBytes E (sdata (blobs E ref cd))))
              (log (CBlobGet ref cd [MediaTypeDocker2ImageConfig; MediaTypeImageConfig])
                 None (started E ref root1))
       else log (CBlobGet ref cd [MediaTypeDocker2ImageConfig; MediaTypeImageConfig])
                 None (started E ref root1))) as ->.
    { destruct (GetLayers _); [|by injection Hb as <- <-].
      by eapply Hrest. }
    destruct (decide _); [right; eauto|by left].
  - destruct (decide _); [right; eauto|by left].
Qed.

End More.

(** ** The archive of a run in which nothing fails *)

Section Tree.
Variable E : Env.

Lemma layers_tree_cons created b ps ents :
  layers_tree E created (b :: ps) ents =
  layers_tree E created ps (<[hexsum E b := layer_dir b created]> ents).
Proof. reflexivity. Qed.

Lemma layers_tree_other created plains ents k :
  k ∉ hexsum E <$> plains → layers_tree E created plains ents !! k = ents !! k.
Proof.
  revert ents. induction plains as [|b ps IH]; intros ents Hk; [done|].
  rewrite fmap_cons in Hk. apply not_elem_of_cons in Hk as [Hne Hk].
  rewrite layers_tree_cons, IH by done. by rewrite lookup_insert_ne.
Qed.

Lemma layers_tree_layer created plains ents b :
  NoDup (hexsum E <$> plains) → b ∈ plains →
  layers_tree E created plains ents !! hexsum E b = Some (layer_dir b created).
Proof.
  revert ents. induction plains as [|b0 ps IH]; intros ents Hnd Hin.
  { inversion Hin. }
  rewrite fmap_cons in Hnd. rewrite layers_tree_cons.
  apply NoDup_cons in Hnd as [Hnotin Hnd].
  destruct (decide (hexsum E b = hexsum E b0)) as [Heq|Hne].
  - rewrite Heq in *. rewrite layers_tree_other by done.
    rewrite lookup_insert_eq.
    apply elem_of_cons in Hin as [->|Hin]; [done|].
    destruct Hnotin. rewrite <- Heq. by apply list_elem_of_fmap_2.
  - apply elem_of_cons in Hin as [->|Hin]; [done|]. by apply IH.
Qed.

Lemma layers_tree_inv created plains ents k n :
  layers_tree E created plains ents !! k = Some n →
  ents !! k = Some n ∨ ∃ b, b ∈ plains ∧ k = hexsum E b.
Proof.
  revert ents. induction plains as [|b0 ps IH]; intros ents H; [by left|].
  rewrite layers_tree_cons in H. apply IH in H as [H|(b & Hb & ->)].
  - rewrite lookup_insert in H. case_decide as Hk.
    + right. exists b0. split; [by left|done].
    + by left.
  - right. exists b. split; [by right|done].
Qed.

Lemma json_not_manifest h : is_hex h = true → h +:+ ".json" ≠ "manifest.json".
Proof.
  destruct h as [|c h]; [done|]. cbn. intros Hh [= -> _]. done.
Qed.

Lemma not_hex_ne h k : is_hex h = true → is_hex k = false → h ≠ k.
Proof. intros Hh Hk ->. congruence. Qed.

(** X10.  What a run in which nothing fails packages: for every layer the
    file [<hex of its diff ID>/layer.tar] with the decompressed bytes, the
    config file [<hex of its digest>.json] with the rebuilt config, both
    with the creation time of the image as modification time,
    [manifest.json] with modification time zero, and no other top-level
    entry.  The file system is left as it was found. *)
Theorem ImageExport_archive_contents ref root cd conf0 created l plains confstr mlj :
  healthy E ref root cd conf0 created l plains confstr mlj →
  let tree := export_tree E created plains confstr mlj in
  ∃ s', ImageExport E ref (init root) = (Done tt, s') ∧
    out s' = tarBytes E tree ∧
    fs s' = root ∧
    (∀ b, b ∈ plains → get [hexsum E b; "layer.tar"] tree = Some (File b created)) ∧
    get [hexsum E confstr +:+ ".json"] tree = Some (File confstr created) ∧
    get ["manifest.json"] tree = Some (File mlj 0%Z) ∧
    (∀ k n, get [k] tree = Some n →
       k = "manifest.json" ∨ k = hexsum E confstr +:+ ".json" ∨
       ∃ b, b ∈ plains ∧ k = hexsum E b).
Proof.
  intros Hh tree.
  pose proof (h_hex _ _ _ _ _ _ _ _ _ _ Hh) as hex_sums.
  destruct (ImageExport_run E (h_fault _ _ _ _ _ _ _ _ _ _ Hh) hex_sums
              _ _ _ _ _ _ _ _ _ Hh)
    as (s' & Hrun & Hfs & Hout & _).
  exists s'. split_and!; try done.
  - intros b Hb. unfold tree, export_tree. cbn [get].
    rewrite !lookup_insert_ne.
    2:{ apply not_eq_sym, not_hex_ne; [apply hex_sums|apply json_not_hex]. }
    2:{ apply not_eq_sym, not_hex_ne; [apply hex_sums|done]. }
    rewrite layers_tree_layer; [|apply Hh|done].
    unfold layer_dir. by rewrite lookup_singleton_eq.
  - unfold tree, export_tree. cbn [get].
    rewrite lookup_insert_ne by (apply not_eq_sym, json_not_manifest, hex_sums).
    by rewrite lookup_insert_eq.
  - unfold tree, export_tree. cbn [get]. by rewrite lookup_insert_eq.
  - intros k n. unfold tree, export_tree. cbn [get].
    destruct (_ !! k) as [n'|] eqn:Hk; [|done]. intros _.
    rewrite lookup_insert in Hk. case_decide; [by left; subst|].
    rewrite lookup_insert in Hk. case_decide; [by right; left; subst|].
    apply layers_tree_inv in Hk as [Hk|?]; [by rewrite lookup_empty in Hk|auto].
Qed.

End Tree.

(** ** Layers with the same content *)

Lemma first_repeat {A} `{EqDecision A} (l : list A) :
  ¬ NoDup l → ∃ l1 x l2, l = l1 ++ x :: l2 ∧ NoDup l1 ∧ x ∈ l1.
Proof.
  induction l as [|x l IH] using rev_ind; [intros []; constructor|].
  intros Hnd. destruct (decide (NoDup l)) as [Hl|Hl].
  - exists l, x, []. split_and!; [done..|].
    destruct (decide (x ∈ l)); [done|]. destruct Hnd.
    apply NoDup_app. split_and!; [done| |apply NoDup_singleton].
    intros y Hy ->%list_elem_of_singleton. done.
  - destruct (IH Hl) as (l1 & y & l2 & -> & Hnd1 & Hy).
    exists l1, y, (l2 ++ [x]). by rewrite <- app_assoc.
Qed.

Section Repeat.
Variable E : Env.
Hypothesis no_fault : ∀ n, fault E n = None.
Hypothesis hex_sums : ∀ b, is_hex (hexsum E b) = true.

Lemma exportLayers_app ref T l1 l2 acc s :
  exportLayers E ref T (l1 ++ l2) acc s =
  bind (exportLayers E ref T l1 acc) (λ acc', exportLayers E ref T l2 acc') s.
Proof.
  revert acc s. induction l1 as [|d l1 IH]; intros acc s; [done|].
  cbn [app exportLayers]. unfold bind.
  destruct (exportLayer E ref T d acc s) as [[acc1|e|] s1]; [|done..].
  rewrite IH. reflexivity.
Qed.

(** One iteration, for a layer whose directory name is taken. *)
Lemma exportLayer_taken ref T base ents es d em conf plain s :
  is_dir base = true →
  fs s = graft T (Dir ents) base →
  (∀ k, is_Some (ents !! k) → is_hex k = true) →
  layer_plain E ref d = Some plain →
  ents !! hexsum E plain = Some (Dir es) →
  ∃ s' ents', exportLayer E ref [T] d (em, conf) s = (Raise (Errno "EEXIST"), s') ∧
    fs s' = graft T (Dir ents') base ∧
    out s' = out s ∧ stderr s' = stderr s.
Proof using no_fault hex_sums.
  intros Hbase Hfs Hkeys (st & Hst & Herr & ->)%layer_plain_inv Hhex.
  set (L := temp_name "layer-*" (rand E (length (trace s)))).
  set (hex := hexsum E (sdata st)) in *.
  assert (HL : ents !! L = None).
  { destruct (ents !! L) eqn:HL; [|done].
    assert (is_hex L = true) by (apply Hkeys; by rewrite HL). done. }
  assert (Hne : hex ≠ "") by apply is_hex_nonempty, hex_sums.
  assert (HhL : hex ≠ L).
  { intros Heq. pose proof (hex_sums (sdata st)) as Hh. fold hex in Hh.
    rewrite Heq in Hh. done. }
  assert (Hw : ∀ w, get [T] (graft T w base) = Some w)
    by (intros; by apply get_graft_dir).
  unfold exportLayer, TempDir, OpenFile, Rename, Chtimes.
  rewrite bind_call, no_fault, Hfs, (fs_mkdir_under (Hw _)). fold L.
  rewrite mkdir_local by done.
  cbn [at_path]. rewrite graft_graft.
  rewrite bind_BlobGet, no_fault, bind_check, bind_deref, bind_defer, Hst, bind_try_ret.
  rewrite (Join_ne _ "layer.tar") by done. cbn [app].
  rewrite bind_call, no_fault. cbn [fs set_fs set_defers log].
  rewrite (fs_open_trunc_under (Hw _)) by done.
  erewrite open_local; [|apply lookup_insert_eq|apply lookup_empty].
  cbn [at_path]. rewrite graft_graft, insert_insert_eq.
  rewrite bind_CopyToFile. cbv zeta. unfold copied. rewrite no_fault, Herr.
  cbn [fst snd fs set_fs set_defers log].
  rewrite (fs_append_under (Hw _)) by done.
  erewrite append_local; [|apply lookup_insert_eq|apply lookup_insert_eq].
  rewrite graft_graft, !insert_insert_eq. cbn [app].
  rewrite bind_check, bind_CloseFile, no_fault, Encoded_FromBytes. fold hex.
  rewrite !Join_ne by done. cbn [app].
  rewrite bind_call, no_fault. cbn [fs set_fs set_defers log].
  rewrite (fs_rename_under (Hw _)) by done.
  erewrite rename_local_exists;
    [|apply lookup_insert_eq|rewrite lookup_insert_ne by done; exact Hhex].
  rewrite graft_graft.
  eexists _, _. split; [reflexivity|]. cbn. done.
Qed.

(** X11.  Whenever two layers of the manifest decompress to the same bytes,
    in a run where nothing else fails, [ImageExport] returns EEXIST, the
    error of renaming onto the directory an earlier layer already occupies;
    nothing is delivered and the file system is left as it was found. *)
Theorem ImageExport_repeated_content_fails ref root cd conf0 created l plains :
  CommonName E ref ≠ "" →
  (∃ es, root = Dir es ∧ es !! temp_name "regcli-export-" (rand E 1) = None) →
  GetConfigDigest (manifests E ref) = Ok cd →
  serr (blobs E ref cd) = None →
  Unmarshal E (sdata (blobs E ref cd)) = Ok conf0 →
  Created conf0 = Some created →
  GetLayers (manifests E ref) = Ok l →
  Forall2 (λ d b, layer_plain E ref d = Some b) l plains →
  ¬ NoDup plains →
  ∃ s', ImageExport E ref (init root) = (Raise (Errno "EEXIST"), s') ∧
    out s' = [] ∧ fs s' = root.
Proof using no_fault hex_sums.
  intros Hname (es & -> & Hfresh) Hcd Hread Hconf Hc Hl HF Hdup.
  assert (¬ NoDup (hexsum E <$> plains)) as Hdup'.
  { intros Hnd. apply Hdup. by eapply NoDup_fmap_1. }
  apply first_repeat in Hdup' as (h1 & x & h2 & Heq & Hnd1 & Hx).
  apply fmap_app_inv in Heq as (p1 & p2' & -> & Hp2 & ->).
  symmetry in Hp2. apply fmap_cons_inv in Hp2 as (b & p2 & -> & -> & ->).
  apply Forall2_app_inv_r in HF as (l1 & l2' & HF1 & HF2 & ->).
  inversion HF2 as [|d b' l2 p2'' Hb HF3]; subst.
  set (T := temp_name "regcli-export-" (rand E 1)) in *.
  rewrite ImageExport_start, decide_False, !no_fault by done. fold T.
  rewrite mkdir_local by done.
  destruct (exportBody _ _ _ _ _ _) as [o1 s1] eqn:Hb1.
  pose proof (exportBody_closes_only E [DRemoveAll (workdir E)] _ _ _ _ _ _ _ Hb1)
    as (ds & Hd & Hcl).
  { exists (@nil deferred). split; [reflexivity|constructor]. }
  unfold exportBody, workdir in Hb1. fold T in Hb1. unfold bind at 1 in Hb1.
  rewrite getConfig_eq, Hcd in Hb1. cbv zeta in Hb1.
  rewrite no_fault, Hread, Hconf, Hl, bind_try_ret in Hb1.
  set (s0 := if decide _ then _ else _) in Hb1.
  assert (fs s0 = graft T (Dir ∅) (Dir es) ∧ out s0 = []) as (Hfs0 & Hout0).
  { subst s0. destruct (decide _); done. }
  clearbody s0.
  destruct (exportLayers_run E no_fault hex_sums ref T (Dir es) l1 p1 ∅ (tagged E ref)
              (set_DiffIDs [] conf0) created s0)
    as (s2 & Hrun & Hfs2 & Hout2 & _); try done.
  { intros k. rewrite lookup_empty. by intros [? ?]. }
  apply list_elem_of_fmap in Hx as (b0 & Hb0 & Hin0).
  destruct (exportLayer_taken ref T (Dir es) (layers_tree E created p1 ∅)
              {["layer.tar" := File b0 created]} d
              (set_Layers (Layers (tagged E ref)
                           ++ ((λ b, hexsum E b +:+ "/layer.tar") <$> p1)) (tagged E ref))
              (set_DiffIDs (RootFS_DiffIDs (set_DiffIDs [] conf0)
                            ++ (FromBytes E <$> p1)) (set_DiffIDs [] conf0))
              b s2)
    as (s3 & ents3 & Hrun3 & Hfs3 & Hout3 & _); try done.
  { apply (layers_tree_keys E hex_sums). intros k. rewrite lookup_empty. by intros [? ?]. }
  { rewrite Hb0. by apply layers_tree_layer. }
  unfold bind at 1 in Hb1. rewrite exportLayers_app in Hb1.
  unfold bind at 1 in Hb1. rewrite Hrun in Hb1.
  cbn [exportLayers] in Hb1. unfold bind at 1 in Hb1. rewrite Hrun3 in Hb1.
  injection Hb1 as <- <-.
  eexists. split; [reflexivity|].
  rewrite Hd, run_deferred_app.
  destruct (run_closes ds s3 Hcl) as (Hfs & Hout & _ & _).
  cbn [run_deferred exec_deferred set_defers fs out stderr trace log set_fs].
  rewrite Hfs, Hout, Hfs3, Hout3, Hout2, Hout0.
  split; [done|].
  unfold workdir. fold T. cbn. by rewrite delete_insert_eq, delete_id.
Qed.

End Repeat.

(** ** The file system outside the work directory *)

Lemma put_in_dir q x ents n :
  q ≠ [] → put q x (Dir ents) = Some n → is_dir n = true.
Proof.
  destruct q as [|c [|c' q]]; [done| |]; intros _.
  - by intros [= <-].
  - rewrite put_cons_cons. destruct (ents !! c); [|done].
    destruct (put _ _ _); [|done]. by intros [= <-].
Qed.

Lemma remove_in_dir q ents : is_dir (remove q (Dir ents)) = true.
Proof.
  destruct q as [|c [|c' q]]; [done..|]. cbn [remove]. by destruct (ents !! c).
Qed.

Lemma put_remove_in_dir q1 q2 x ents n :
  q2 ≠ [] → put q2 x (remove q1 (Dir ents)) = Some n → is_dir n = true.
Proof.
  intros Hq. pose proof (remove_in_dir q1 ents) as Hd.
  destruct (remove q1 (Dir ents)) as [|ents']; [done|]. by apply put_in_dir.
Qed.

Section Inside.
Context (T : string) (root : node).
Context (Hroot : is_dir root = true).

Local Ltac start Hin :=
  let ents := fresh "ents" in
  destruct Hin as [ents ->];
  pose proof (get_graft_dir T (Dir ents) root Hroot) as Hw.

Local Ltac close ents :=
  first [ by exists ents; rewrite ?graft_graft
        | eexists; rewrite ?graft_graft; reflexivity ].

Lemma mkdir_inside name r x r' :
  fs_mkdir [T] name r = (x, r') → inside T root r → inside T root r'.
Proof using Hroot.
  intros H Hin. start Hin. rewrite (fs_mkdir_under Hw) in H.
  unfold fs_mkdir in H. cbn [get app] in H.
  destruct (ents !! name); cbn in H; injection H as <- <-; close ents.
Qed.

Lemma open_inside q now r x r' :
  q ≠ [] → fs_open_trunc (T :: q) now r = (x, r') → inside T root r → inside T root r'.
Proof using Hroot.
  intros Hq H Hin. start Hin. rewrite (fs_open_trunc_under Hw) in H by done.
  unfold fs_open_trunc in H.
  destruct (get q _) as [[]|]; try (injection H as <- <-; close ents);
    (destruct (put q _ _) as [n|] eqn:Hp; injection H as <- <-; [|close ents];
     apply put_in_dir in Hp; [|done]; destruct n; [done|close ents]).
Qed.

Lemma write_inside q d now r x r' :
  q ≠ [] → fs_write_file (T :: q) d now r = (x, r') → inside T root r → inside T root r'.
Proof using Hroot.
  intros Hq H Hin. start Hin. rewrite (fs_write_file_under Hw) in H by done.
  unfold fs_write_file in H.
  destruct (get q _) as [[]|]; try (injection H as <- <-; close ents);
    (destruct (put q _ _) as [n|] eqn:Hp; injection H as <- <-; [|close ents];
     apply put_in_dir in Hp; [|done]; destruct n; [done|close ents]).
Qed.

Lemma append_inside q d now r x r' :
  q ≠ [] → fs_append (T :: q) d now r = (x, r') → inside T root r → inside T root r'.
Proof using Hroot.
  intros Hq H Hin. start Hin. rewrite (fs_append_under Hw) in H by done.
  unfold fs_append in H.
  destruct (get q _) as [[]|]; try (injection H as <- <-; close ents);
    (destruct (put q _ _) as [n|] eqn:Hp; injection H as <- <-; [|close ents];
     apply put_in_dir in Hp; [|done]; destruct n; [done|close ents]).
Qed.

Lemma chtimes_inside q t r x r' :
  q ≠ [] → fs_chtimes (T :: q) t r = (x, r') → inside T root r → inside T root r'.
Proof using Hroot.
  intros Hq H Hin. start Hin. rewrite (fs_chtimes_under Hw) in H by done.
  unfold fs_chtimes in H.
  destruct (get q _) as [[]|]; try (injection H as <- <-; close ents);
    (destruct (put q _ _) as [n|] eqn:Hp; injection H as <- <-; [|close ents];
     apply put_in_dir in Hp; [|done]; destruct n; [done|close ents]).
Qed.

Lemma rename_inside q1 q2 r x r' :
  q1 ≠ [] → fs_rename (T :: q1) (T :: q2) r = (x, r') →
  inside T root r → inside T root r'.
Proof using Hroot.
  intros Hq H Hin. start Hin. rewrite (fs_rename_under Hw) in H by done.
  unfold fs_rename in H.
  destruct (get q1 _) as [src|]; [|injection H as <- <-; close ents].
  destruct q2 as [|c q2]; [cbn in H; injection H as <- <-; close ents|].
  destruct (get (c :: q2) _) as [[]|].
  - destruct (is_dir src); [injection H as <- <-; close ents|].
    destruct (put _ _ _) as [n|] eqn:Hp; injection H as <- <-; [|close ents].
    apply put_remove_in_dir in Hp; [|done]. destruct n; [done|close ents].
  - injection H as <- <-; close ents.
  - destruct (decide _) as [|_]; [injection H as <- <-; close ents|].
    destruct (put _ _ _) as [n|] eqn:Hp; injection H as <- <-; [|close ents].
    apply put_remove_in_dir in Hp; [|done]. destruct n; [done|close ents].
Qed.

End Inside.

Lemma open_path p now r lf r' : fs_open_trunc p now r = (Ok lf, r') → lf = p.
Proof.
  unfold fs_open_trunc. destruct (get p r) as [[]|]; try done;
    destruct (put _ _ _); try done; by intros [= <- _].
Qed.

Lemma Join_cons c p e : Join (c :: p) e = c :: Join p e.
Proof. unfold Join. by destruct (decide _). Qed.

Lemma Join_layer_tar p : Join p "layer.tar" ≠ [].
Proof. rewrite Join_ne by done. by destruct p. Qed.

Lemma calls_ok_log c s : calls_ok s → calls_ok (log c None s).
Proof.
  intros Hs c' e'. cbn. rewrite elem_of_app, list_elem_of_singleton.
  intros [H|[=]]. by eapply Hs.
Qed.

Lemma calls_ok_unchecked c e s :
  unchecked c = true → calls_ok s → calls_ok (log c e s).
Proof.
  intros Hc Hs c' e'. cbn. rewrite elem_of_app, list_elem_of_singleton.
  intros [H|[= -> _]]; [by eapply Hs|done].
Qed.

Lemma calls_ok_run_deferred ds s : calls_ok s → calls_ok (run_deferred ds s).
Proof.
  revert s. induction ds as [|d ds IH]; intros s Hs; [done|].
  simpl. apply IH. destruct d; simpl; by apply calls_ok_log.
Qed.

Section Confined.
Variable E : Env.
Context {T : string} {root : node}.
Context (Hroot : is_dir root = true).

Local Ltac stays L H Hin Hn :=
  match type of H with
  | _ = (_, ?r) =>
      assert (Hn : inside T root r)
        by (eapply (L T root Hroot); [idtac .. | exact H | exact Hin];
            first [done | apply Join_layer_tar])
  end.

Local Ltac leave :=
  intros [= <- <-]; split;
  [cbn [fs log set_fs set_defers add_out add_stderr]; assumption | done].

Lemma exportLayer_confined ref d acc s o s' :
  exportLayer E ref [T] d acc s = (o, s') →
  inside T root (fs s) →
  inside T root (fs s') ∧ (∀ a, o = Done a → calls_ok s → calls_ok s').
Proof using Hroot.
  intros H Hin. revert H. destruct acc as [em conf].
  unfold exportLayer, TempDir, OpenFile, Rename, Chtimes.
  rewrite bind_call. destruct (fault E _); [leave|].
  destruct (fs_mkdir _ _ _) as [[layerDir|e] root1] eqn:Hmk;
    stays mkdir_inside Hmk Hin Hin1; [|leave].
  apply fs_mkdir_path in Hmk as ->.
  rewrite bind_BlobGet. destruct (fault E _); [rewrite bind_check; leave|].
  rewrite bind_check, bind_deref, bind_defer, bind_try_ret.
  destruct (DecompressStream E _) as [st|e]; [|leave].
  rewrite bind_call. destruct (fault E _); [leave|].
  cbn [fs log set_fs set_defers]. cbn [app]. rewrite !Join_cons.
  destruct (fs_open_trunc _ _ _) as [[lf|e] root2] eqn:Hop;
    stays open_inside Hop Hin1 Hin2;
    [|leave].
  apply open_path in Hop as ->.
  rewrite bind_CopyToFile. cbv zeta. cbn [fs log set_fs set_defers].
  destruct (fs_append _ _ _ _) as [[[]|e] root3] eqn:Hap;
    stays append_inside Hap Hin2 Hin3;
    [|rewrite bind_check; leave].
  destruct (copied E _ st) as [hashed [e|]]; cbn [fst snd];
    [rewrite bind_check; leave|].
  rewrite bind_check. close_file. rewrite Encoded_FromBytes, bind_call.
  destruct (fault E _); [leave|].
  cbn [fs log set_fs set_defers]. rewrite ?Join_cons.
  destruct (fs_rename _ _ _) as [[[]|e] root4] eqn:Hrn;
    stays rename_inside Hrn Hin3 Hin4;
    [|leave].
  rewrite bind_deref. destruct (Created conf) as [created|]; [|leave].
  rewrite bind_call. destruct (fault E _); [leave|].
  cbn [fs log set_fs set_defers]. cbn [app].
  destruct (fs_chtimes _ _ _) as [[[]|e] root5] eqn:Hch;
    stays chtimes_inside Hch Hin4 Hin5;
    [|leave].
  intros [= <- <-]. split; [cbn; assumption|]. intros _ _ Hs.
  repeat first [ apply calls_ok_log
               | apply calls_ok_unchecked; [reflexivity|]
               | assumption ].
Qed.

Lemma exportLayers_confined ref l acc s o s' :
  exportLayers E ref [T] l acc s = (o, s') →
  inside T root (fs s) →
  inside T root (fs s') ∧ (∀ a, o = Done a → calls_ok s → calls_ok s').
Proof using Hroot.
  revert acc s. induction l as [|d l IH]; intros acc s; simpl.
  - intros [= <- <-]. done.
  - intros H Hin.
    apply bind_inv in H as [(acc1 & s1 & H1 & H) | [(e & H1 & ->) | (H1 & ->)]];
      apply exportLayer_confined in H1 as [Hin1 Hok1]; try done.
    apply IH in H as [Hin2 Hok2]; [|done]. split; [done|].
    intros a Ha Hs. eapply Hok2; [done|]. by eapply Hok1.
Qed.

Lemma writeArchive_confined em conf s o s' :
  writeArchive E [T] em conf s = (o, s') →
  inside T root (fs s) →
  inside T root (fs s') ∧ (∀ a, o = Done a → calls_ok s → calls_ok s').
Proof using Hroot.
  intros H Hin. revert H.
  unfold writeArchive, WriteFile, Chtimes, Tar.
  rewrite bind_try_ret. destruct (MarshalImage E conf) as [confstr|e]; [|leave].
  rewrite Encoded_FromBytes, (Join_ne _ (_ +:+ ".json")) by apply json_nonempty.
  rewrite (Join_ne _ "manifest.json") by done. cbn [app].
  rewrite bind_call. destruct (fault E _); [leave|].
  destruct (fs_write_file _ _ _ _) as [[[]|e] root1] eqn:Hw1;
    stays write_inside Hw1 Hin Hin1; [|leave].
  rewrite bind_deref. destruct (Created conf) as [created|]; [|leave].
  rewrite bind_call. destruct (fault E _); [leave|].
  cbn [fs log set_fs set_defers].
  destruct (fs_chtimes _ _ _) as [[[]|e] root2] eqn:Hc1;
    stays chtimes_inside Hc1 Hin1 Hin2; [|leave].
  rewrite bind_try_ret. destruct (MarshalManifests E _) as [mlj|e]; [|leave].
  rewrite bind_call. destruct (fault E _); [leave|].
  cbn [fs log set_fs set_defers].
  destruct (fs_write_file [_; "manifest.json"] _ _ _) as [[[]|e] root3] eqn:Hw2;
    stays write_inside Hw2 Hin2 Hin3; [|leave].
  rewrite bind_call. destruct (fault E _); [leave|].
  cbn [fs log set_fs set_defers].
  destruct (fs_chtimes [_; "manifest.json"] _ _) as [[[]|e] root4] eqn:Hc2;
    stays chtimes_inside Hc2 Hin3 Hin4; [|leave].
  rewrite bind_call. destruct (fault E _); [leave|].
  cbn [fs log set_fs set_defers].
  destruct (match get _ _ with Some _ => _ | None => _ end) as [[tar|e] root5] eqn:Htar;
    (assert (root5 = root4) as -> by (destruct (get _ root4); by injection Htar));
    [|leave].
  rewrite bind_defer, bind_CopyOut. cbv zeta. unfold ret.
  intros [= <- <-]. split; [cbn; assumption|]. intros _ _ Hs.
  cbn [add_out set_defers log set_fs].
  apply calls_ok_unchecked; [reflexivity|].
  repeat first [ apply calls_ok_log | assumption ].
Qed.

Lemma exportBody_confined ref m em s o s' :
  exportBody E ref m [T] em s = (o, s') →
  inside T root (fs s) →
  inside T root (fs s') ∧ (∀ a, o = Done a → calls_ok s → calls_ok s').
Proof using Hroot.
  unfold exportBody. intros H Hin.
  apply bind_inv in H as [(conf & s1 & H1 & H) | [(e & H1 & ->) | (H1 & ->)]];
    rewrite getConfig_eq in H1; cbv zeta in H1;
    destruct (GetConfigDigest m) as [cd|e0]; try discriminate H1;
    try (injection H1 as <- <-; by split);
    (destruct (fault E _); [try discriminate H1; injection H1 as <- <-; by split|]);
    (destruct (serr _); [try discriminate H1; injection H1 as <- <-; by split|]);
    destruct (Unmarshal E _) as [conf0|e0]; try discriminate H1.
  2:{ injection H1 as <- <-. split; [|done]. by destruct (decide _). }
  injection H1 as <- <-.
  set (s1 := if decide _ then _ else _) in H.
  assert (Hin1 : inside T root (fs s1)) by (subst s1; by destruct (decide _)).
  assert (Hok1 : calls_ok s → calls_ok s1).
  { intros Hs. subst s1. destruct (decide _); by apply calls_ok_log. }
  clearbody s1.
  rewrite bind_try_ret in H. destruct (GetLayers m) as [l|e0].
  2:{ injection H as <- <-. by split. }
  apply bind_inv in H as [([em' conf'] & s2 & H2 & H) | [(e & H2 & ->) | (H2 & ->)]];
    apply exportLayers_confined in H2 as [Hin2 Hok2]; try done.
  apply writeArchive_confined in H as [Hin3 Hok3]; [|done]. split; [done|].
  intros a Ha Hs. eapply Hok3; [done|]. eapply Hok2; [done|]. by apply Hok1.
Qed.

End Confined.

Section Leaves.
Variable E : Env.

Lemma fs_mkdir_top name root x root' :
  fs_mkdir [] name root = (x, root') →
  match x with
  | Ok _ => ∃ es, root = Dir es ∧ es !! name = None ∧ root' = graft name (Dir ∅) root
  | Err _ => root' = root
  end.
Proof.
  unfold fs_mkdir. cbn [get app put]. destruct root as [|es]; [by intros [= <- <-]|].
  destruct (es !! name) eqn:Hn; intros [= <- <-]; [done|]. by exists es.
Qed.

Lemma ImageExport_confined ref root o s' :
  ImageExport E ref (init root) = (o, s') →
  fs s' = root ∧ (o = Done tt → calls_ok s').
Proof.
  rewrite ImageExport_start. destruct (decide _); [by intros [= <- <-]|].
  destruct (fault E 0); [by intros [= <- <-]|].
  destruct (fault E 1); [by intros [= <- <-]|].
  destruct (fs_mkdir _ _ _) as [[p|e] root1] eqn:Hmk; apply fs_mkdir_top in Hmk.
  2:{ intros [= <- <-]. by subst. }
  destruct Hmk as (es & -> & Hfresh & ->).
  set (T := temp_name "regcli-export-" (rand E 1)) in *.
  destruct (exportBody _ _ _ _ _ _) as [o1 s1] eqn:Hb. intros [= <- <-].
  pose proof (exportBody_closes_only E [DRemoveAll (workdir E)] _ _ _ _ _ _ _ Hb)
    as (ds & Hd & Hcl).
  { exists (@nil deferred). split; [reflexivity|constructor]. }
  apply (exportBody_confined E (T:=T) (root:=Dir es) eq_refl) in Hb
    as [[ents Hin] Hok]; [|by exists ∅].
  split.
  - rewrite Hd, run_deferred_app.
    destruct (run_closes ds s1 Hcl) as (Hfs & _).
    cbn [run_deferred exec_deferred set_defers fs log set_fs].
    rewrite Hfs, Hin. unfold workdir. fold T. cbn.
    by rewrite delete_insert_eq, delete_id.
  - intros ->. intros c e. cbn [trace set_defers].
    apply calls_ok_run_deferred. apply (Hok tt eq_refl).
    intros c' e' [[=]|[[=]|[]%elem_of_nil]%elem_of_cons]%elem_of_cons.
Qed.

(** X12.  [ImageExport] works inside its work directory only: whatever the
    run does and however it ends, the file system below the temporary
    directory is afterwards what it was before. *)
Theorem ImageExport_restores_fs ref root o s' :
  ImageExport E ref (init root) = (o, s') → fs s' = root.
Proof. intros H. by apply ImageExport_confined in H as [? _]. Qed.


End Leaves.

(** ** The further properties on the small registry *)

Lemma ImageInspect_returns_config_witness :
  let E := Demo.env Demo.two_layers (Some 1000%Z) Demo.no_fault 0 in
  "sha256:c0" ≠ FromBytes E (sdata (blobs E Demo.ref0 "sha256:c0")) ∧
  ∃ s', ImageInspect E Demo.ref0 (init (Dir ∅)) = (Done Demo.demo_conf, s') ∧
    trace s' = trace (init (Dir ∅)) ++
      [(CManifestGet Demo.ref0, None);
       (CBlobGet Demo.ref0 "sha256:c0"
          [MediaTypeDocker2ImageConfig; MediaTypeImageConfig], None)] ∧
    same_but_trace (init (Dir ∅)) s'.
Proof.
  intros E. split; [done|].
  apply (ImageInspect_returns_config E Demo.ref0 "sha256:c0" Demo.demo_conf
           (init (Dir ∅))); reflexivity.
Defined.

Lemma ImageInspect_read_only_witness :
  let E := Demo.env Demo.two_layers (Some 1000%Z) (Demo.fault_at 1) 0 in
  let s := init (Dir ∅) in
  let r := ImageInspect E Demo.ref0 s in
  r.1 = Raise (ErrFault 1) ∧
  same_but_trace s r.2 ∧
  r.1 ≠ Panic ∧
  (∃ evs, trace r.2 = trace s ++ evs ∧ (length evs ≤ 2)%nat ∧ only_last_fails evs ∧
     ∀ ev, ev ∈ evs →
       ev.1 = CManifestGet Demo.ref0 ∨
       ∃ cd, GetConfigDigest (manifests E Demo.ref0) = Ok cd ∧
         ev.1 = CBlobGet Demo.ref0 cd
                  [MediaTypeDocker2ImageConfig; MediaTypeImageConfig]) ∧
  (∀ img, r.1 = Done img →
     ∃ cd, GetConfigDigest (manifests E Demo.ref0) = Ok cd ∧
           serr (blobs E Demo.ref0 cd) = None ∧
           Unmarshal E (sdata (blobs E Demo.ref0 cd)) = Ok img).
Proof.
  intros E s r. split; [reflexivity|].
  apply (ImageInspect_read_only E Demo.ref0 s r.1 r.2).
  apply surjective_pairing.
Defined.

Lemma ImageCopy_stops_at_first_error_witness :
  let E := Demo.env Demo.two_layers (Some 1000%Z) (Demo.fault_at 2) 0 in
  let s := init (Dir ∅) in
  let r := ImageCopy E Demo.ref0 Demo.ref1 s in
  r.1 = Raise (ErrFault 2) ∧
  same_but_trace s r.2 ∧
  r.1 ≠ Panic ∧
  ∃ evs, trace r.2 = trace s ++ evs ∧
    (fst <$> evs) `prefix_of` copy_plan E Demo.ref0 Demo.ref1 ∧
    only_last_fails evs ∧
    ∀ e, r.1 = Raise e →
      (∃ c, last evs = Some (c, Some e)) ∨
      GetConfigDigest (manifests E Demo.ref0) = Err e ∨
      GetLayers (manifests E Demo.ref0) = Err e.
Proof.
  intros E s r. split; [reflexivity|].
  apply (ImageCopy_stops_at_first_error E Demo.ref0 Demo.ref1 s r.1 r.2).
  apply surjective_pairing.
Defined.

Lemma ImageCopy_nil_iff_witness :
  let E := Demo.env Demo.two_layers (Some 1000%Z) Demo.no_fault 0 in
  let s := init (Dir ∅) in
  let r := ImageCopy E Demo.ref0 Demo.ref1 s in
  copy_plan E Demo.ref0 Demo.ref1 =
    [CManifestGet Demo.ref0; CBlobCopy Demo.ref0 Demo.ref1 "sha256:c0";
     CBlobCopy Demo.ref0 Demo.ref1 "sha256:l1";
     CBlobCopy Demo.ref0 Demo.ref1 "sha256:l2";
     CManifestPut Demo.ref1 Demo.two_layers] ∧
  (r.1 = Done tt ↔
     is_Some (ok (GetConfigDigest (manifests E Demo.ref0))) ∧
     is_Some (ok (GetLayers (manifests E Demo.ref0))) ∧
     trace r.2 = trace s ++ (okev <$> copy_plan E Demo.ref0 Demo.ref1)).
Proof.
  intros E s r. split; [reflexivity|].
  apply (ImageCopy_nil_iff E Demo.ref0 Demo.ref1 s r.1 r.2).
  apply surjective_pairing.
Defined.

Lemma runLayerPull_nil_reader_panics_witness :
  let E := Demo.nil_reader
             (Demo.env Demo.two_layers (Some 1000%Z) (Demo.fault_at 0) 0) in
  let ref := mkRef "" "" "" "" "registry.test/repo" in
  let s := init (Dir ∅) in
  NewRef E "registry.test/repo" = Ok ref ∧
  fault E (length (trace s)) = Some (ErrFault 0) ∧
  failed_reader E (length (trace s)) = None ∧
  runLayerPull E ["registry.test/repo"; "sha256:l1"] s =
    (Panic, log (CBlobGet ref "sha256:l1" []) (Some (ErrFault 0)) s).
Proof.
  intros E ref s.
  split; [reflexivity|]. split; [reflexivity|]. split; [reflexivity|].
  apply (runLayerPull_nil_reader_panics E "registry.test/repo" "sha256:l1" ref
           (ErrFault 0) s); reflexivity.
Defined.

Lemma runLayerPull_writes_blob_witness :
  let E := Demo.env Demo.two_layers (Some 1000%Z) (Demo.fault_at 1) 0 in
  let ref := mkRef "" "" "" "" "registry.test/repo" in
  let s := init (Dir ∅) in
  sdata (blobs E ref "sha256:l1") = [Byte.x1f; Byte.x0a] ∧
  ∃ s', runLayerPull E ["registry.test/repo"; "sha256:l1"] s =
        (match fault E (S (length (trace s))), serr (blobs E ref "sha256:l1") with
         | Some e, _ => Raise e
         | None, Some e => Raise e
         | None, None => Done tt
         end, s') ∧
    out s' = out s ++
      match fault E (S (length (trace s))) with
      | Some _ => take (short E (S (length (trace s)))) (sdata (blobs E ref "sha256:l1"))
      | None => sdata (blobs E ref "sha256:l1")
      end ∧
    fs s' = fs s ∧ stderr s' = stderr s.
Proof.
  intros E ref s. split; [reflexivity|].
  apply (runLayerPull_writes_blob E "registry.test/repo" "sha256:l1" ref s);
    reflexivity.
Defined.

Lemma ImageExport_output_witness :
  let E := Demo.env Demo.two_layers (Some 1000%Z) (Demo.fault_at 21) 0 in
  let r := ImageExport E Demo.ref0 (init (Dir ∅)) in
  r.1 = Raise (ErrFault 21) ∧
  ((r.1 = Done tt ∧ ∃ d e, (CCopyOut d, e) ∈ trace r.2 ∧ out r.2 = d) ∨
   (r.1 ≠ Done tt ∧ out r.2 = [] ∧ nocopy r.2)).
Proof.
  intros E r. split; [reflexivity|].
  apply (ImageExport_output E Demo.ref0 (Dir ∅) r.1 r.2).
  apply surjective_pairing.
Defined.

Lemma ImageExport_never_writes_registry_witness :
  let E := Demo.env Demo.two_layers (Some 1000%Z) Demo.no_fault 0 in
  let r := ImageExport E Demo.ref0 (init (Dir ∅)) in
  r.1 = Done tt ∧ length (trace r.2) = 27 ∧
  ∀ ev, ev ∈ trace r.2 → ¬ registry_write ev.
Proof.
  intros E r. split; [reflexivity|]. split; [reflexivity|].
  apply (ImageExport_never_writes_registry E Demo.ref0 (Dir ∅) r.1 r.2).
  apply surjective_pairing.
Defined.

Lemma ImageExport_warns_only_on_mismatch_witness :
  let E := Demo.env Demo.two_layers (Some 1000%Z) (Demo.fault_at 8) 0 in
  let r := ImageExport E Demo.ref0 (init (Dir ∅)) in
  r.1 = Raise (ErrFault 8) ∧
  (stderr r.2 = [] ∨
   ∃ cd, GetConfigDigest (manifests E Demo.ref0) = Ok cd ∧
         cd ≠ FromBytes E (sdata (blobs E Demo.ref0 cd)) ∧
         stderr r.2 =
           [mismatch_warning cd (FromBytes E (sdata (blobs E Demo.ref0 cd)))]).
Proof.
  intros E r. split; [reflexivity|].
  apply (ImageExport_warns_only_on_mismatch E Demo.ref0 (Dir ∅) r.1 r.2).
  apply surjective_pairing.
Defined.

Lemma ImageExport_archive_contents_witness :
  let E := Demo.env Demo.two_layers (Some 1000%Z) Demo.no_fault 0 in
  let plains := [Demo.plain1; Demo.plain2] in
  let tree := export_tree E 1000%Z plains Demo.demo_confstr Demo.demo_mlj in
  ∃ s', ImageExport E Demo.ref0 (init (Dir ∅)) = (Done tt, s') ∧
    out s' = tarBytes E tree ∧
    fs s' = Dir ∅ ∧
    (∀ b, b ∈ plains → get [hexsum E b; "layer.tar"] tree = Some (File b 1000%Z)) ∧
    get [hexsum E Demo.demo_confstr +:+ ".json"] tree
      = Some (File Demo.demo_confstr 1000%Z) ∧
    get ["manifest.json"] tree = Some (File Demo.demo_mlj 0%Z) ∧
    (∀ k n, get [k] tree = Some n →
       k = "manifest.json" ∨ k = hexsum E Demo.demo_confstr +:+ ".json" ∨
       ∃ b, b ∈ plains ∧ k = hexsum E b).
Proof.
  intros E plains tree.
  apply (ImageExport_archive_contents E Demo.ref0 (Dir ∅) "sha256:c0" Demo.demo_conf
           1000%Z [Demo.L1; Demo.L2] plains Demo.demo_confstr Demo.demo_mlj).
  apply DemoFacts.demo_healthy.
Defined.

Lemma ImageExport_repeated_content_fails_witness :
  let E := Demo.env Demo.twin_layers (Some 1000%Z) Demo.no_fault 0 in
  DescDigest Demo.L1 ≠ DescDigest Demo.L3 ∧
  ¬ NoDup [Demo.plain1; Demo.plain1] ∧
  ∃ s', ImageExport E Demo.ref0 (init (Dir ∅)) = (Raise (Errno "EEXIST"), s') ∧
    out s' = [] ∧ fs s' = Dir ∅.
Proof.
  intros E.
  assert (¬ NoDup [Demo.plain1; Demo.plain1]) as Hdup.
  { intros [Hn _]%NoDup_cons. apply Hn. by left. }
  split; [done|]. split; [exact Hdup|].
  apply (ImageExport_repeated_content_fails E (λ _, eq_refl) DemoFacts.toy_hexsum_hex
           Demo.ref0 (Dir ∅) "sha256:c0" Demo.demo_conf 1000%Z
           [Demo.L1; Demo.L3] [Demo.plain1; Demo.plain1]).
  - done.
  - exists ∅. split; [reflexivity|apply lookup_empty].
  - reflexivity.
  - reflexivity.
  - reflexivity.
  - reflexivity.
  - reflexivity.
  - repeat constructor.
  - exact Hdup.
Defined.

Lemma ImageExport_restores_fs_witness :
  let E := Demo.env Demo.two_layers (Some 1000%Z) (Demo.fault_at 15) 0 in
  let root := Dir {["old" := File [Byte.x00] 7%Z]} in
  let r := ImageExport E Demo.ref0 (init root) in
  r.1 = Raise (ErrFault 15) ∧ fs r.2 = root.
Proof.
  intros E root r. split; [reflexivity|].
  apply (ImageExport_restores_fs E Demo.ref0 root r.1 r.2).
  apply surjective_pairing.
Defined.

